(** * AIService: provider cascade, retry policy and provider adapter

    A shallow embedding of [src/services/AIService.ts].  The asynchronous
    methods of the class run on one cooperative task, so they are modelled as
    computations over the trace of observable events (requests, timers, log
    lines); the network and [Math.random] are oracles that answer from the
    trace so far, which covers every stateful or random environment. *)

From Stdlib Require Import ZArith List String Ascii Bool Lia.
From Stdlib Require Import Floats.SpecFloat.
From stdpp Require Import gmap strings list pretty.
Import ListNotations.

Local Open Scope Z_scope.
Local Open Scope string_scope.
Local Open Scope list_scope.

Local Set Warnings "-register-all".

(** ** JavaScript values *)

(** IEEE 754 binary64, the JavaScript number type. *)
Definition prec : Z := 53.
Definition emax : Z := 1024.

Definition num_of_Z (z : Z) : spec_float := binary_normalize prec emax z 0 false.

(** The literal [0.7]: the binary64 nearest to 7/10. *)
Definition num_0_7 : spec_float :=
  Eval vm_compute in SFdiv prec emax (num_of_Z 7) (num_of_Z 10).

(** Values of type [any]: what [JSON.parse] produces, plus [undefined], which
    property reads produce.  An object lists its own properties, one entry
    per key. *)
Inductive jsval : Type :=
| VUndefined
| VNull
| VBool (b : bool)
| VNum (n : spec_float)
| VStr (s : string)
| VArr (items : list jsval)
| VObj (fields : list (string * jsval)).

(** ToBoolean. *)
Definition truthy (v : jsval) : bool :=
  match v with
  | VUndefined | VNull => false
  | VBool b => b
  | VNum (S754_zero _) | VNum S754_nan => false
  | VNum _ => true
  | VStr s => negb (String.eqb s "")
  | VArr _ | VObj _ => true
  end.

Definition nullish (v : jsval) : bool :=
  match v with
  | VUndefined | VNull => true
  | _ => false
  end.

Fixpoint assoc (k : string) (fields : list (string * jsval)) : jsval :=
  match fields with
  | [] => VUndefined
  | (k', v) :: rest => if String.eqb k k' then v else assoc k rest
  end.

(** [v.k] for a property name [k] that no built-in prototype defines
    (choices, candidates, message, content, parts, text).  [None] is the
    TypeError raised when [v] is null or undefined. *)
Definition get (v : jsval) (k : string) : option jsval :=
  match v with
  | VUndefined | VNull => None
  | VObj fields => Some (assoc k fields)
  | _ => Some VUndefined
  end.

(** [v[0]]; a string is indexed by character. *)
Definition get0 (v : jsval) : option jsval :=
  match v with
  | VUndefined | VNull => None
  | VArr items => Some (match items with x :: _ => x | [] => VUndefined end)
  | VStr s => Some (match s with String c _ => VStr (String c EmptyString) | EmptyString => VUndefined end)
  | VObj fields => Some (assoc "0" fields)
  | _ => Some VUndefined
  end.

(** [a || b]. *)
Definition or_else (a b : jsval) : jsval := if truthy a then a else b.

(** ** Data model of the service *)

Inductive Provider : Type :=
| cerebras | gemini | deepseek | openrouter | mistral | together | groq.

Definition Provider_name (p : Provider) : string :=
  match p with
  | cerebras => "cerebras"
  | gemini => "gemini"
  | deepseek => "deepseek"
  | openrouter => "openrouter"
  | mistral => "mistral"
  | together => "together"
  | groq => "groq"
  end.

Definition Provider_eqb (p q : Provider) : bool :=
  String.eqb (Provider_name p) (Provider_name q).

(** [interface ApiKeys].  Every field is declared a string; at run time a
    field can also be absent, which reads as [undefined] ([None]). *)
Module ApiKeys.
Record t : Type := Build {
  cerebras : option string;
  gemini : option string;
  deepseek : option string;
  openrouter : option string;
  mistral : option string;
  together : option string;
  groq : option string
}.
End ApiKeys.

(** [apiKeys[provider]]. *)
Definition key_of (apiKeys : ApiKeys.t) (p : Provider) : option string :=
  match p with
  | cerebras => ApiKeys.cerebras apiKeys
  | gemini => ApiKeys.gemini apiKeys
  | deepseek => ApiKeys.deepseek apiKeys
  | openrouter => ApiKeys.openrouter apiKeys
  | mistral => ApiKeys.mistral apiKeys
  | together => ApiKeys.together apiKeys
  | groq => ApiKeys.groq apiKeys
  end.

(** The guard [if (!apiKey) continue]: the key when it is truthy. *)
Definition usable (k : option string) : option string :=
  match k with
  | Some s => if String.eqb s "" then None else Some s
  | None => None
  end.

Inductive Role : Type := user | assistant | system.

Definition Role_name (r : Role) : string :=
  match r with
  | user => "user"
  | assistant => "assistant"
  | system => "system"
  end.

Record ChatMessage : Type := { role : Role; content : string }.

Inductive ProviderType : Type := openai_compatible | gemini_native.

Record ProviderConfig : Type := {
  baseURL : string;
  endpoint : string;
  model : option string;
  type : ProviderType
}.

Definition PROVIDER_CONFIG (p : Provider) : ProviderConfig :=
  match p with
  | cerebras =>
      {| baseURL := "https://api.cerebras.ai/v1";
         endpoint := "/chat/completions";
         model := Some "llama-3.1-70b-chat";
         type := openai_compatible |}
  | gemini =>
      {| baseURL := "https://generativelanguage.googleapis.com/v1beta";
         endpoint := "/models/gemini-2.5-flash-lite:generateContent";
         model := None;
         type := gemini_native |}
  | deepseek =>
      {| baseURL := "https://api.deepseek.com/v1";
         endpoint := "/chat/completions";
         model := Some "deepseek-r1-0528";
         type := openai_compatible |}
  | openrouter =>
      {| baseURL := "https://openrouter.ai/api/v1";
         endpoint := "/chat/completions";
         model := Some "deepseek/deepseek-r1";
         type := openai_compatible |}
  | mistral =>
      {| baseURL := "https://api.mistral.ai/v1";
         endpoint := "/chat/completions";
         model := Some "mistral-large-3";
         type := openai_compatible |}
  | together =>
      {| baseURL := "https://api.together.xyz/v1";
         endpoint := "/chat/completions";
         model := Some "meta-llama/Llama-3.1-70b-instruct";
         type := openai_compatible |}
  | groq =>
      {| baseURL := "https://api.groq.com/openai/v1";
         endpoint := "/chat/completions";
         model := Some "llama-3.1-70b-versatile";
         type := openai_compatible |}
  end.

Definition PROVIDER_CASCADE_ORDER : list Provider :=
  [cerebras; gemini; deepseek; openrouter; mistral; together; groq].

Definition MAX_RETRIES : nat := 3.
Definition INITIAL_BACKOFF_MS : spec_float := num_of_Z 2000.

(** ** Errors, requests, responses and events *)

(** An [Error] object; [status] is the property [makeApiCall] adds to the
    errors it raises for a response that is not ok. *)
Module JsError.
Record t : Type := Build { message : string; status : option Z }.
End JsError.

(** What a [throw] carries.  [lastError] of the retry loop starts out
    [undefined]. *)
Inductive thrown : Type :=
| ThrowUndefined
| ThrowError (e : JsError.t).

(** The argument of [fetch]: the URL and the init object.  [body] is the value
    handed to [JSON.stringify]. *)
Record Request : Type := {
  url : string;
  method : string;
  headers : gmap string string;
  body : jsval
}.

(** A [Response] of the fetch API whose body can be read: [status], the
    result of [text()], and the result of [json()], which rejects ([inl],
    with the platform's message) when the body is not JSON. *)
Module Response.
Record t : Type := Build {
  status : Z;
  text : string;
  json : string + jsval
}.
Definition ok (r : t) : bool := ((200 <=? status r) && (status r <=? 299))%Z.
End Response.

(** [fetch] rejects (a network failure), or resolves with a response whose
    body can be read, or resolves with a response whose body cannot be read:
    [text()] and [json()] then reject with the platform's message. *)
Inductive FetchResult : Type :=
| NetworkError (msg : string)
| Responded (r : Response.t)
| Unreadable (status : Z) (msg : string).

Inductive Event : Type :=
| EvFetch (provider : Provider) (req : Request)
    (* await fetch(url, {method, headers, body}), issued by makeApiCall(provider, ..) *)
| EvSleep (delay : spec_float)
    (* await new Promise(resolve => setTimeout(resolve, delay)) *)
| EvWarnSkip (provider : Provider)
    (* console.warn: Skipping <provider>: API key not provided. *)
| EvWarnRetry (provider : Provider) (status : option Z) (delay : spec_float)
    (* console.warn: Provider <provider> returned status <status>. Retrying in
       <delay.toFixed(0)>ms...; the event keeps the number [delay] that the
       line prints rounded *)
| EvErrorFailed (provider : Provider) (error : thrown)
    (* console.error: Provider <provider> failed permanently: <error> *)
| EvErrorParse (provider : Provider) (response : jsval).
    (* console.error: Failed to parse response from <provider>: <response> *)

Definition Trace : Type := list Event.

(** ** Computations: a trace is threaded, a [throw] ends the computation *)

Definition M (A : Type) : Type := Trace -> (thrown + A) * Trace.

Definition ret {A : Type} (a : A) : M A := fun tr => (inr a, tr).

Definition throw {A : Type} (e : thrown) : M A := fun tr => (inl e, tr).

Definition bind {A B : Type} (m : M A) (k : A -> M B) : M B :=
  fun tr =>
    match m tr with
    | (inr a, tr') => k a tr'
    | (inl e, tr') => (inl e, tr')
    end.

Definition try_catch {A : Type} (m : M A) (handler : thrown -> M A) : M A :=
  fun tr =>
    match m tr with
    | (inl e, tr') => handler e tr'
    | (inr a, tr') => (inr a, tr')
    end.

Definition emit (ev : Event) : M unit := fun tr => (inr tt, tr ++ [ev]).

Declare Scope js_scope.
Delimit Scope js_scope with js.
Notation "x <- m ;; k" := (bind m (fun x => k))
  (at level 100, m at next level, right associativity) : js_scope.
Notation "m ;;; k" := (bind m (fun _ => k))
  (at level 100, right associativity) : js_scope.

Definition new_Error (msg : string) : thrown :=
  ThrowError (JsError.Build msg None).

(** [error.status] in the catch block of the retry loop.  What is caught
    there was thrown by [makeApiCall], which only throws [Error] objects
    (lemma [makeApiCall_throws]). *)
Definition status_of (error : thrown) : option Z :=
  match error with
  | ThrowError e => JsError.status e
  | ThrowUndefined => None
  end.

(** [error.status === 429 || error.status >= 500]. *)
Definition retryable (error : thrown) : bool :=
  match status_of error with
  | Some s => ((s =? 429) || (500 <=? s))%Z
  | None => false
  end.

(** [INITIAL_BACKOFF_MS * Math.pow(2, attempt) + Math.random() * 1000]. *)
Definition backoff_delay (attempt : nat) (rnd : spec_float) : spec_float :=
  SFadd prec emax
    (SFmul prec emax INITIAL_BACKOFF_MS (num_of_Z (2 ^ Z.of_nat attempt)))
    (SFmul prec emax rnd (num_of_Z 1000)).

(** ** Provider adapter: the request *)

Definition message_value (m : ChatMessage) : jsval :=
  VObj [("role", VStr (Role_name (role m))); ("content", VStr (content m))].

(** The element [messages.map] builds for the native dialect. *)
Definition gemini_message (m : ChatMessage) : jsval :=
  VObj [("role", VStr (match role m with
                       | assistant => "model"
                       | r => Role_name r
                       end));
        ("parts", VArr [VObj [("text", VStr (content m))]])].

Definition model_value (config : ProviderConfig) : jsval :=
  match model config with
  | Some m => VStr m
  | None => VUndefined
  end.

Definition request_url (provider : Provider) (apiKey : string) : string :=
  let config := PROVIDER_CONFIG provider in
  baseURL config +:+ endpoint config +:+
    match type config with
    | gemini_native => "?key=" +:+ apiKey
    | openai_compatible => ""
    end.

Definition request_headers (provider : Provider) (apiKey : string)
  : gmap string string :=
  let headers : gmap string string := {[ "Content-Type" := "application/json" ]} in
  match type (PROVIDER_CONFIG provider) with
  | openai_compatible => <[ "Authorization" := "Bearer " +:+ apiKey ]> headers
  | gemini_native => headers
  end.

Definition request_body (provider : Provider) (messages : list ChatMessage)
  : jsval :=
  let config := PROVIDER_CONFIG provider in
  match type config with
  | openai_compatible =>
      VObj [("model", model_value config);
            ("messages", VArr (List.map message_value messages));
            ("max_tokens", VNum (num_of_Z 32768));
            ("temperature", VNum num_0_7)]
  | gemini_native =>
      let geminiMessages := List.map gemini_message messages in
      VObj [("contents", VArr geminiMessages);
            ("generationConfig",
             VObj [("maxOutputTokens", VNum (num_of_Z 32768));
                   ("temperature", VNum num_0_7)])]
  end.

(** Lines 133 to 164 of [makeApiCall]: what is passed to [fetch]. *)
Definition request_of (provider : Provider) (messages : list ChatMessage)
    (apiKey : string) : Request :=
  {| url := request_url provider apiKey;
     method := "POST";
     headers := request_headers provider apiKey;
     body := request_body provider messages |}.

(** ** Provider adapter: the response *)

(** [v?.k]. *)
Definition opt_get (v : jsval) (k : string) : jsval :=
  match get v k with
  | Some x => x
  | None => VUndefined
  end.

(** The body of the [try] in [parseResponse]; [None] is an exception raised
    inside it.
    openai-compatible: [response.choices[0]?.message?.content || ''];
    gemini-native: [response.candidates[0]?.content?.parts[0]?.text || '']. *)
Definition extract (t : ProviderType) (response : jsval) : option jsval :=
  match t with
  | openai_compatible =>
      match get response "choices" with
      | None => None
      | Some choices =>
          match get0 choices with
          | None => None
          | Some first =>
              Some (or_else (opt_get (opt_get first "message") "content") (VStr ""))
          end
      end
  | gemini_native =>
      match get response "candidates" with
      | None => None
      | Some candidates =>
          match get0 candidates with
          | None => None
          | Some first =>
              if nullish (opt_get first "content") then Some (VStr "")
              else
                match get0 (opt_get (opt_get first "content") "parts") with
                | None => None
                | Some part => Some (or_else (opt_get part "text") (VStr ""))
                end
          end
      end
  end.

Definition parse_error (provider : Provider) : thrown :=
  new_Error ("Could not parse a valid response from " +:+ Provider_name provider +:+ ".").

Definition parseResponse (provider : Provider) (response : jsval) : M jsval :=
  let config := PROVIDER_CONFIG provider in
  match extract (type config) response with
  | Some text => ret text
  | None =>
      (emit (EvErrorParse provider response) ;;;
       throw (parse_error provider))%js
  end.

Module ChatResult.
Record t : Type := Build { content : jsval; provider : Provider }.
End ChatResult.

Definition aggregate_message : string :=
  "All AI providers failed. Please check your API keys, network connection, and provider status.".

Section Service.

(** The network: the answer to a request, given everything observed before
    it. *)
Variable fetch : Trace -> Request -> FetchResult.
(** [Math.random()]. *)
Variable random : Trace -> spec_float.
(** [this.apiKeys]. *)
Variable apiKeys : ApiKeys.t.

Definition makeApiCall (provider : Provider) (messages : list ChatMessage)
    (apiKey : string) : M jsval :=
  fun tr =>
    let req := request_of provider messages apiKey in
    let tr' := tr ++ [EvFetch provider req] in
    match fetch tr req with
    | NetworkError msg => (inl (new_Error msg), tr')
    | Responded response =>
        if negb (Response.ok response) then
          let errorText := Response.text response in
          (inl (ThrowError
                  (JsError.Build
                     ("API call to " +:+ Provider_name provider +:+
                      " failed with status " +:+ pretty (Response.status response) +:+
                      ": " +:+ errorText)
                     (Some (Response.status response)))),
           tr')
        else
          match Response.json response with
          | inl msg => (inl (new_Error msg), tr')
          | inr v => (inr v, tr')
          end
    | Unreadable _ msg =>
        (* [await response.text()] or [response.json()] rejects *)
        (inl (new_Error msg), tr')
    end.

(** The retryable branch of the [catch] block: compute the delay, warn,
    sleep. *)
Definition backoff (provider : Provider) (attempt : nat) (error : thrown)
    : M unit :=
  fun tr =>
    let delay := backoff_delay attempt (random tr) in
    (emit (EvWarnRetry provider (status_of error) delay) ;;;
     emit (EvSleep delay))%js tr.

(** The [for] loop of [tryProviderWithBackoff] with [n] iterations left,
    [n = MAX_RETRIES - attempt]. *)
Fixpoint tryProviderWithBackoff_loop (n attempt : nat) (lastError : thrown)
    (provider : Provider) (messages : list ChatMessage) (apiKey : string)
    : M jsval :=
  match n with
  | O => throw lastError
  | S n' =>
      try_catch (makeApiCall provider messages apiKey)
        (fun error =>
           if retryable error then
             (backoff provider attempt error ;;;
              tryProviderWithBackoff_loop n' (S attempt) error
                provider messages apiKey)%js
           else throw error)
  end.

Definition tryProviderWithBackoff (provider : Provider)
    (messages : list ChatMessage) (apiKey : string) : M jsval :=
  tryProviderWithBackoff_loop MAX_RETRIES 0 ThrowUndefined
    provider messages apiKey.

(** One iteration of the loop of [chat] for a provider with a key: [Some]
    is the [return] inside the [try], [None] falls out of the [try]. *)
Definition chat_try (provider : Provider) (messages : list ChatMessage)
    (apiKey : string) : M (option ChatResult.t) :=
  try_catch
    (response <- tryProviderWithBackoff provider messages apiKey ;;
     if truthy response then
       (content <- parseResponse provider response ;;
        ret (Some (ChatResult.Build content provider)))
     else ret None)%js
    (fun error =>
       (emit (EvErrorFailed provider error) ;;; ret None)%js).

(** The loop of [chat] over the providers still to try. *)
Fixpoint chat_loop (providers : list Provider) (messages : list ChatMessage)
    : M ChatResult.t :=
  match providers with
  | [] => throw (new_Error aggregate_message)
  | provider :: rest =>
      match usable (key_of apiKeys provider) with
      | None =>
          (emit (EvWarnSkip provider) ;;; chat_loop rest messages)%js
      | Some apiKey =>
          (r <- chat_try provider messages apiKey ;;
           match r with
           | Some result => ret result
           | None => chat_loop rest messages
           end)%js
      end
  end.

Definition chat (messages : list ChatMessage) : M ChatResult.t :=
  chat_loop PROVIDER_CASCADE_ORDER messages.

End Service.

(** ** Concrete environments: the mock server of the test suite *)

(** The provider whose endpoint a URL addresses. *)
Definition provider_of_url (u : string) : option Provider :=
  List.find
    (fun p => String.prefix (baseURL (PROVIDER_CONFIG p) +:+ endpoint (PROVIDER_CONFIG p)) u)
    PROVIDER_CASCADE_ORDER.

Definition count (f : Event -> bool) (tr : Trace) : nat :=
  List.length (List.filter f tr).

Definition is_request (p : Provider) (ev : Event) : bool :=
  match ev with
  | EvFetch q _ => Provider_eqb p q
  | _ => false
  end.

(** The number of requests a provider has received so far
    ([requestCount] in the tests). *)
Definition requests_to (p : Provider) (tr : Trace) : nat :=
  count (is_request p) tr.

(** A server made of one handler per endpoint; a handler sees how many
    requests its endpoint got before this one. *)
Definition server (handler : Provider -> nat -> Request -> FetchResult)
  : Trace -> Request -> FetchResult :=
  fun tr req =>
    match provider_of_url (url req) with
    | Some p => handler p (requests_to p tr) req
    | None => NetworkError "Failed to fetch"
    end.

(** [HttpResponse.json(v)]. *)
Definition json_response (v : jsval) : FetchResult :=
  Responded (Response.Build 200 "" (inr v)).

(** [new HttpResponse(text, {status})] with a body that is not JSON. *)
Definition text_response (status : Z) (text : string) : FetchResult :=
  Responded (Response.Build status text (inl "Unexpected token in JSON")).

Definition openai_reply (s : string) : jsval :=
  VObj [("choices", VArr [VObj [("message", VObj [("content", VStr s)])]])].

Definition gemini_reply (s : string) : jsval :=
  VObj [("candidates", VArr [VObj [("content", VObj [("parts", VArr [VObj [("text", VStr s)]])])]])].

Definition FAKE_API_KEYS : ApiKeys.t :=
  ApiKeys.Build (Some "fake-cerebras-key") (Some "fake-gemini-key")
    (Some "fake-deepseek-key") (Some "fake-openrouter-key")
    (Some "fake-mistral-key") (Some "fake-together-key") (Some "fake-groq-key").

(** The default handlers of the test suite. *)
Definition handlers (p : Provider) (count : nat) (req : Request) : FetchResult :=
  match p with
  | cerebras =>
      if decide (headers req !! "Authorization" = Some "Bearer fake-cerebras-key")
      then json_response (openai_reply "Response from Cerebras")
      else text_response 401 "Unauthorized"
  | gemini =>
      if String.eqb (url req)
           (request_url gemini "fake-gemini-key")
      then json_response (gemini_reply "Response from Gemini")
      else text_response 401 "Unauthorized"
  | deepseek =>
      if decide (headers req !! "Authorization" = Some "Bearer fake-deepseek-key")
      then json_response (openai_reply "Response from DeepSeek")
      else text_response 401 "Unauthorized"
  | _ => text_response 500 ""
  end.

(** [server.use(...)]: replace the handler of some endpoints. *)
Definition use (override : Provider -> option (nat -> Request -> FetchResult))
    (base : Provider -> nat -> Request -> FetchResult)
    : Provider -> nat -> Request -> FetchResult :=
  fun p => match override p with
           | Some h => h
           | None => base p
           end.

Definition always (r : FetchResult) : nat -> Request -> FetchResult :=
  fun _ _ => r.

Definition random_half : Trace -> spec_float :=
  fun _ => binary_normalize prec emax 1 (-1) false.

Definition hello : list ChatMessage := [ {| role := user; content := "hello" |} ].

(** ** Observations on traces *)

Definition sleeps (tr : Trace) : list spec_float :=
  List.flat_map (fun ev => match ev with EvSleep d => [d] | _ => [] end) tr.

(** The providers requested, in order. *)
Definition fetched (tr : Trace) : list Provider :=
  List.flat_map (fun ev => match ev with EvFetch p _ => [p] | _ => [] end) tr.

Definition is_failure (p : Provider) (ev : Event) : bool :=
  match ev with
  | EvErrorFailed q _ => Provider_eqb p q
  | _ => false
  end.

(** The permanent failures logged against a provider (the failure tally). *)
Definition failures_of (p : Provider) (tr : Trace) : nat :=
  count (is_failure p) tr.

Definition is_retry (p : Provider) (ev : Event) : bool :=
  match ev with
  | EvWarnRetry q _ _ => Provider_eqb p q
  | _ => false
  end.

(** The retries announced for a provider. *)
Definition retries_of (p : Provider) (tr : Trace) : nat :=
  count (is_retry p) tr.

(** Events of the retry policy of provider [p]: its requests, its retry
    warnings and the timers. *)
Definition retry_event (p : Provider) (ev : Event) : Prop :=
  match ev with
  | EvFetch q _ => q = p
  | EvWarnRetry q _ _ => q = p
  | EvSleep _ => True
  | _ => False
  end.

(** A log line that reports an error. *)
Definition error_log (ev : Event) : bool :=
  match ev with
  | EvErrorFailed _ _ | EvErrorParse _ _ => true
  | _ => false
  end.

(** [needle] occurs in [s]. *)
Definition occurs_in (needle s : string) : bool :=
  match String.index 0 needle s with
  | Some _ => true
  | None => false
  end.

(** Events of one iteration of the cascade for provider [p]. *)
Definition provider_event (p : Provider) (ev : Event) : Prop :=
  match ev with
  | EvFetch q _ | EvWarnRetry q _ _ | EvErrorFailed q _ | EvErrorParse q _ => q = p
  | EvSleep _ => True
  | EvWarnSkip _ => False
  end.

(** Events of the cascade over [providers]: a provider is either skipped,
    having no usable key, or tried, having one. *)
Definition cascade_event (apiKeys : ApiKeys.t) (providers : list Provider)
    (ev : Event) : Prop :=
  match ev with
  | EvFetch q _ | EvWarnRetry q _ _ | EvErrorFailed q _ | EvErrorParse q _ =>
      In q providers /\ usable (key_of apiKeys q) <> None
  | EvWarnSkip q => In q providers /\ usable (key_of apiKeys q) = None
  | EvSleep _ => True
  end.

(** ** Conditions on a response and on a run *)

(** When extraction raises: the response, or its list of choices or
    candidates, is null or undefined; or, in the native shape, the first
    candidate has a content whose parts are null or undefined. *)
Definition structure_missing (t : ProviderType) (response : jsval) : bool :=
  match t with
  | openai_compatible =>
      nullish response || nullish (opt_get response "choices")
  | gemini_native =>
      nullish response || nullish (opt_get response "candidates") ||
      (let first := match get0 (opt_get response "candidates") with
                    | Some c => c
                    | None => VUndefined
                    end in
       negb (nullish (opt_get first "content")) &&
       nullish (opt_get (opt_get first "content") "parts"))
  end.

(** [v[0]], undefined when there is nothing to index. *)
Definition opt_get0 (v : jsval) : jsval :=
  match get0 v with
  | Some x => x
  | None => VUndefined
  end.

(** The first choice's message content; the first candidate's first content
    part's text.  Undefined when any step of the path is missing. *)
Definition text_at (t : ProviderType) (response : jsval) : jsval :=
  match t with
  | openai_compatible =>
      opt_get (opt_get (opt_get0 (opt_get response "choices")) "message") "content"
  | gemini_native =>
      opt_get
        (opt_get0
           (opt_get (opt_get (opt_get0 (opt_get response "candidates")) "content") "parts"))
        "text"
  end.

Section Runs.

Variable fetch : Trace -> Request -> FetchResult.
Variable random : Trace -> spec_float.
Variable apiKeys : ApiKeys.t.

(** Provider [p], tried at trace [tr], fails after its retry policy: the
    trace once the cascade has logged the failure. *)
Definition fails_at (p : Provider) (messages : list ChatMessage)
    (apiKey : string) (tr : Trace) : option Trace :=
  match tryProviderWithBackoff fetch random p messages apiKey tr with
  | (inl error, tr1) => Some (tr1 ++ [EvErrorFailed p error])
  | (inr _, _) => None
  end.

(** Every provider of the list, tried in turn from [tr], is skipped for
    want of a credential or fails after its retry policy. *)
Fixpoint all_skipped_or_failed (providers : list Provider)
    (messages : list ChatMessage) (tr : Trace) : option Trace :=
  match providers with
  | [] => Some tr
  | p :: rest =>
      match usable (key_of apiKeys p) with
      | None => all_skipped_or_failed rest messages (tr ++ [EvWarnSkip p])
      | Some apiKey =>
          match fails_at p messages apiKey tr with
          | Some tr' => all_skipped_or_failed rest messages tr'
          | None => None
          end
      end
  end.

(** Provider [p], tried at trace [tr], gives no result: its call fails, or
    returns a falsy response, or a response that cannot be parsed. *)
Definition no_result_at (p : Provider) (messages : list ChatMessage)
    (apiKey : string) (tr : Trace) : option Trace :=
  match tryProviderWithBackoff fetch random p messages apiKey tr with
  | (inl error, tr1) => Some (tr1 ++ [EvErrorFailed p error])
  | (inr response, tr1) =>
      if truthy response then
        if structure_missing (type (PROVIDER_CONFIG p)) response
        then Some (tr1 ++ [EvErrorParse p response;
                           EvErrorFailed p (parse_error p)])
        else None
      else Some tr1
  end.

(** Every provider of the list, tried in turn from [tr], is skipped or gives
    no result. *)
Fixpoint all_without_result (providers : list Provider)
    (messages : list ChatMessage) (tr : Trace) : option Trace :=
  match providers with
  | [] => Some tr
  | p :: rest =>
      match usable (key_of apiKeys p) with
      | None => all_without_result rest messages (tr ++ [EvWarnSkip p])
      | Some apiKey =>
          match no_result_at p messages apiKey tr with
          | Some tr' => all_without_result rest messages tr'
          | None => None
          end
      end
  end.

(** The endpoint answers with a 2xx status and a JSON body that is falsy. *)
Definition falsy_2xx (r : FetchResult) : Prop :=
  match r with
  | Responded response =>
      Response.ok response = true /\
      exists v, Response.json response = inr v /\ truthy v = false
  | NetworkError _ | Unreadable _ _ => False
  end.

End Runs.

(** Environments used as concrete inputs. *)

Definition only (p : Provider) (h : nat -> Request -> FetchResult)
  : Provider -> option (nat -> Request -> FetchResult) :=
  fun q => if Provider_eqb p q then Some h else None.

Definition NO_API_KEYS : ApiKeys.t :=
  ApiKeys.Build (Some "") None (Some "") None None (Some "") None.

(** The first endpoint always answers 500 (second test of the suite). *)
Definition cerebras_down : Trace -> Request -> FetchResult :=
  server (use (only cerebras (always (text_response 500 ""))) handlers).

(** The first endpoint answers 429 once, then succeeds (sixth test). *)
Definition cerebras_rate_limited : Trace -> Request -> FetchResult :=
  server (use (only cerebras
                 (fun count _ =>
                    match count with
                    | O => text_response 429 "Rate limit exceeded"
                    | S _ => json_response (openai_reply "Success on retry")
                    end))
            handlers).

(** The first endpoint answers 401 (seventh test). *)
Definition cerebras_unauthorized : Trace -> Request -> FetchResult :=
  server (use (only cerebras (always (text_response 401 "Unauthorized"))) handlers).

(** The first two, the first three endpoints always answer 500 (third and
    fourth tests). *)
Definition two_down : Trace -> Request -> FetchResult :=
  server (use (fun p => match p with
                        | cerebras | gemini => Some (always (text_response 500 ""))
                        | _ => None
                        end) handlers).

Definition three_down : Trace -> Request -> FetchResult :=
  server (use (fun p => match p with
                        | cerebras | gemini | deepseek => Some (always (text_response 500 ""))
                        | _ => None
                        end) handlers).

(** The first endpoint answers 200 with the JSON body [null], with [{}]. *)
Definition cerebras_null : Trace -> Request -> FetchResult :=
  server (use (only cerebras (always (json_response VNull))) handlers).

Definition cerebras_empty_object : Trace -> Request -> FetchResult :=
  server (use (only cerebras (always (json_response (VObj [])))) handlers).

(** Every request is answered 200 with the JSON body [null]. *)
Definition all_null : Trace -> Request -> FetchResult :=
  fun _ _ => json_response VNull.

(** [{ ...FAKE_API_KEYS, cerebras: '' }] (fifth test). *)
Definition incompleteKeys : ApiKeys.t :=
  ApiKeys.Build (Some "") (Some "fake-gemini-key")
    (Some "fake-deepseek-key") (Some "fake-openrouter-key")
    (Some "fake-mistral-key") (Some "fake-together-key") (Some "fake-groq-key").

(** The trace once the cascade has given up on the first provider. *)
Definition after_cerebras_down : Trace :=
  snd (chat_loop cerebras_down random_half FAKE_API_KEYS [cerebras] hello []).

Definition error_500 : thrown :=
  ThrowError (JsError.Build "API call to cerebras failed with status 500: " (Some 500)).

(** The traces of three failing attempts on the first endpoint. *)
Definition attempt1 : Trace :=
  snd (makeApiCall three_down cerebras hello "fake-cerebras-key" []).
Definition attempt2 : Trace :=
  snd (makeApiCall three_down cerebras hello "fake-cerebras-key"
         (snd (backoff random_half cerebras 0 error_500 attempt1))).
Definition attempt3 : Trace :=
  snd (makeApiCall three_down cerebras hello "fake-cerebras-key"
         (snd (backoff random_half cerebras 1 error_500 attempt2))).

Definition conversation : list ChatMessage :=
  [ {| role := system; content := "Be brief." |};
    {| role := user; content := "hello" |};
    {| role := assistant; content := "Hi." |};
    {| role := user; content := "bye" |} ].

(** ** Further observations *)

Definition is_skip (p : Provider) (ev : Event) : bool :=
  match ev with
  | EvWarnSkip q => Provider_eqb p q
  | _ => false
  end.

(** The skips logged for a provider. *)
Definition skips_of (p : Provider) (tr : Trace) : nat :=
  count (is_skip p) tr.

(** The delays of successive backoffs from attempt index [attempt] on, one
    per draw of [Math.random()]. *)
Fixpoint schedule (attempt : nat) (rnds : list spec_float) : list spec_float :=
  match rnds with
  | [] => []
  | r :: rest => backoff_delay attempt r :: schedule (S attempt) rest
  end.

(** A request is the one request of its provider for this conversation,
    built with that provider's own usable credential. *)
Definition own_request (apiKeys : ApiKeys.t) (messages : list ChatMessage)
    (ev : Event) : Prop :=
  match ev with
  | EvFetch q req =>
      exists key, usable (key_of apiKeys q) = Some key /\
                  req = request_of q messages key
  | _ => True
  end.

(** Provider [i] of the list requested [ks[i]] times, one provider after the
    other. *)
Definition request_blocks (providers : list Provider) (ks : list nat)
  : list Provider :=
  List.concat
    (List.map (fun pk => List.repeat (fst pk) (snd pk)) (List.combine providers ks)).

(** The success body of each dialect, as the mock server of the test suite
    sends it. *)
Definition reply_of (t : ProviderType) (s : string) : jsval :=
  match t with
  | openai_compatible => openai_reply s
  | gemini_native => gemini_reply s
  end.

(** The first endpoint answers 503 once, then succeeds. *)
Definition cerebras_unavailable_once : Trace -> Request -> FetchResult :=
  server (use (only cerebras
                 (fun count _ =>
                    match count with
                    | O => text_response 503 "Service Unavailable"
                    | S _ => json_response (openai_reply "Back again")
                    end))
            handlers).

(** The network is down: every [fetch] rejects. *)
Definition offline : Trace -> Request -> FetchResult :=
  fun _ _ => NetworkError "Failed to fetch".

(** ** Properties *)

Lemma Provider_eqb_eq (p q : Provider) : Provider_eqb p q = true <-> p = q.
Proof. destruct p, q; vm_compute; split; congruence. Qed.

Lemma Provider_eqb_refl (p : Provider) : Provider_eqb p p = true.
Proof. destruct p; reflexivity. Qed.

Lemma count_app (f : Event -> bool) (a b : Trace) :
  count f (a ++ b) = (count f a + count f b)%nat.
Proof. unfold count. now rewrite List.filter_app, List.length_app. Qed.

Lemma count_none (f : Event -> bool) (P : Event -> Prop) (d : Trace) :
  (forall ev, P ev -> f ev = false) -> Forall P d -> count f d = 0%nat.
Proof.
  intros HP. induction 1 as [| ev d Hev _ IH]; [reflexivity |].
  unfold count in *. cbn [List.filter]. now rewrite (HP ev Hev).
Qed.

Lemma requests_to_app (p : Provider) (a b : Trace) :
  requests_to p (a ++ b) = (requests_to p a + requests_to p b)%nat.
Proof. apply count_app. Qed.


Section Facts.

Variable fetch : Trace -> Request -> FetchResult.
Variable random : Trace -> spec_float.
Variable apiKeys : ApiKeys.t.

Local Abbreviation call := (makeApiCall fetch).
Local Abbreviation retry_loop := (tryProviderWithBackoff_loop fetch random).
Local Abbreviation try_provider := (tryProviderWithBackoff fetch random).

(** Every call makes exactly one request. *)
Lemma makeApiCall_trace p msgs key tr :
  snd (call p msgs key tr) = tr ++ [EvFetch p (request_of p msgs key)].
Proof.
  unfold makeApiCall.
  destruct (fetch tr _) as [msg | r | st msg]; [reflexivity | | reflexivity].
  destruct (negb (Response.ok r)); [reflexivity |].
  destruct (Response.json r); reflexivity.
Qed.

(** A call returns exactly the JSON body of a 2xx response. *)
Lemma makeApiCall_returns p msgs key tr v tr' :
  call p msgs key tr = (inr v, tr') <->
  (exists r, fetch tr (request_of p msgs key) = Responded r /\
             Response.ok r = true /\ Response.json r = inr v) /\
  tr' = tr ++ [EvFetch p (request_of p msgs key)].
Proof.
  unfold makeApiCall.
  destruct (fetch tr _) as [msg | r | st msg] eqn:Hf.
  - split; [discriminate | intros [(r & Hr & _) _]; discriminate].
  - destruct (Response.ok r) eqn:Hok; cbn [negb].
    + destruct (Response.json r) as [msg | w] eqn:Hj.
      * split; [discriminate |].
        intros [(r' & Hr & _ & Hj') _]. injection Hr as <-. congruence.
      * split.
        -- intros [= <- <-]. split; [exists r; auto | reflexivity].
        -- intros [(r' & Hr & _ & Hj') ->]. injection Hr as <-.
           rewrite Hj in Hj'. injection Hj' as <-. reflexivity.
    + split; [discriminate |].
      intros [(r' & Hr & Hok' & _) _]. injection Hr as <-. congruence.
  - split; [discriminate | intros [(r & Hr & _) _]; discriminate].
Qed.

(** What a call throws is an [Error] object, never [undefined]. *)
Lemma makeApiCall_throws p msgs key tr e tr' :
  call p msgs key tr = (inl e, tr') -> exists err, e = ThrowError err.
Proof.
  unfold makeApiCall, new_Error.
  destruct (fetch tr _) as [msg | r | st msg];
    [intros [= <- _]; eauto | | intros [= <- _]; eauto].
  destruct (negb (Response.ok r)); [intros [= <- _]; eauto |].
  destruct (Response.json r); [intros [= <- _]; eauto | discriminate].
Qed.

(** Backing off logs the warning and sleeps, with one delay for both. *)
Lemma backoff_run p attempt error tr :
  backoff random p attempt error tr =
  (inr tt, tr ++ [EvWarnRetry p (status_of error) (backoff_delay attempt (random tr));
                  EvSleep (backoff_delay attempt (random tr))]).
Proof. unfold backoff, bind, emit. cbn. now rewrite <- List.app_assoc. Qed.

(** One iteration of the retry loop. *)
Lemma retry_loop_step n attempt last p msgs key tr :
  retry_loop (S n) attempt last p msgs key tr =
  match call p msgs key tr with
  | (inr v, tr1) => (inr v, tr1)
  | (inl error, tr1) =>
      if retryable error then
        retry_loop n (S attempt) error p msgs key
          (snd (backoff random p attempt error tr1))
      else (inl error, tr1)
  end.
Proof.
  cbn [tryProviderWithBackoff_loop]. unfold try_catch.
  destruct (call p msgs key tr) as [[error | v] tr1]; [| reflexivity].
  destruct (retryable error); [| reflexivity].
  unfold bind. now rewrite backoff_run.
Qed.

Lemma requests_to_fetch p req :
  requests_to p [EvFetch p req] = 1%nat.
Proof. unfold requests_to, count. cbn. now rewrite Provider_eqb_refl. Qed.

(** The retry loop only appends events of its own provider's retry policy,
    and at most [n] requests. *)
Lemma retry_loop_events n : forall attempt last p msgs key tr,
  exists d,
    snd (retry_loop n attempt last p msgs key tr) = tr ++ d /\
    Forall (retry_event p) d /\
    (requests_to p d <= n)%nat.
Proof.
  induction n as [| n IH]; intros attempt last p msgs key tr.
  - exists []. cbn. rewrite List.app_nil_r. repeat split; auto.
  - rewrite retry_loop_step.
    pose proof (makeApiCall_trace p msgs key tr) as Htr.
    destruct (call p msgs key tr) as [[error | v] tr1]; cbn [snd] in Htr; subst tr1.
    + destruct (retryable error).
      * rewrite backoff_run. cbn [snd].
        match goal with |- context [retry_loop n _ _ _ _ _ (_ ++ ?evs)] =>
          destruct (IH (S attempt) error p msgs key
                      ((tr ++ [EvFetch p (request_of p msgs key)]) ++ evs))
            as (d & Hd & Hev & Hn);
          exists ([EvFetch p (request_of p msgs key)] ++ evs ++ d)
        end.
        split; [rewrite Hd; now rewrite <- !List.app_assoc |].
        split.
        -- cbn [List.app]. repeat (constructor; [cbn; auto |]). exact Hev.
        -- rewrite !requests_to_app, requests_to_fetch.
           assert (forall a b c, requests_to p [EvWarnRetry p a b; EvSleep c] = 0%nat) as ->
             by reflexivity.
           lia.
      * exists [EvFetch p (request_of p msgs key)]. cbn [snd]. split; [reflexivity |].
        split; [repeat constructor |].
        rewrite requests_to_fetch. lia.
    + exists [EvFetch p (request_of p msgs key)]. cbn [snd]. split; [reflexivity |].
      split; [repeat constructor |].
      rewrite requests_to_fetch. lia.
Qed.

Local Abbreviation try_chat := (chat_try fetch random).
Local Abbreviation cascade := (chat_loop fetch random apiKeys).

(** Reading a member of a null or undefined value gives undefined. *)
Lemma opt_get_nullish v k : nullish v = true -> opt_get v k = VUndefined.
Proof. destruct v; cbn; congruence. Qed.

Lemma get0_none v : get0 v = None <-> nullish v = true.
Proof. destruct v; cbn; split; congruence. Qed.

Lemma get_none v k : get v k = None <-> nullish v = true.
Proof. destruct v; cbn; split; congruence. Qed.

Lemma get_nullish v k x : get v k = Some x -> nullish v = false.
Proof. destruct v; cbn; congruence. Qed.

Lemma get0_nullish v x : get0 v = Some x -> nullish v = false.
Proof. destruct v; cbn; congruence. Qed.

Lemma opt_get_get v k x : get v k = Some x -> opt_get v k = x.
Proof. unfold opt_get. now intros ->. Qed.

(** Extraction, as the optional chains evaluate, against its description:
    an exception exactly when the structure is missing, otherwise the text
    on the path, or the empty string when that text is falsy. *)
Lemma extract_spec t response :
  extract t response =
  if structure_missing t response then None
  else Some (or_else (text_at t response) (VStr "")).
Proof.
  destruct t; unfold extract, structure_missing, text_at, opt_get0.
  - destruct (get response "choices") as [choices |] eqn:Hg.
    + rewrite (get_nullish _ _ _ Hg), (opt_get_get _ _ _ Hg). cbn [orb].
      destruct (get0 choices) as [first |] eqn:H0.
      * now rewrite (get0_nullish _ _ H0).
      * apply get0_none in H0. now rewrite H0.
    + apply get_none in Hg. now rewrite Hg.
  - destruct (get response "candidates") as [candidates |] eqn:Hg.
    + rewrite (get_nullish _ _ _ Hg), (opt_get_get _ _ _ Hg). cbn [orb].
      destruct (get0 candidates) as [first |] eqn:H0.
      * rewrite (get0_nullish _ _ H0). cbn [orb].
        destruct (nullish (opt_get first "content")) eqn:Hc; cbn [negb andb].
        -- now rewrite (opt_get_nullish _ "parts" Hc).
        -- destruct (get0 (opt_get (opt_get first "content") "parts")) as [part |] eqn:Hp.
           ++ now rewrite (get0_nullish _ _ Hp).
           ++ apply get0_none in Hp. now rewrite Hp.
      * apply get0_none in H0. now rewrite H0.
    + apply get_none in Hg. now rewrite Hg.
Qed.

(** [parseResponse] either returns without a trace, or logs the response and
    throws the parsing error of its provider. *)
Lemma parseResponse_run p response tr :
  parseResponse p response tr =
  match extract (type (PROVIDER_CONFIG p)) response with
  | Some text => (inr text, tr)
  | None => (inl (parse_error p), tr ++ [EvErrorParse p response])
  end.
Proof.
  unfold parseResponse.
  destruct (extract _ response); reflexivity.
Qed.

(** What one iteration of the cascade makes of a provider with a key. *)
Lemma chat_try_run p msgs key tr :
  try_chat p msgs key tr =
  match try_provider p msgs key tr with
  | (inl error, tr1) => (inr None, tr1 ++ [EvErrorFailed p error])
  | (inr response, tr1) =>
      if truthy response then
        match extract (type (PROVIDER_CONFIG p)) response with
        | Some text => (inr (Some (ChatResult.Build text p)), tr1)
        | None =>
            (inr None, tr1 ++ [EvErrorParse p response; EvErrorFailed p (parse_error p)])
        end
      else (inr None, tr1)
  end.
Proof.
  unfold chat_try, try_catch, bind.
  destruct (try_provider p msgs key tr) as [[error | response] tr1]; [reflexivity |].
  destruct (truthy response); [| reflexivity].
  rewrite parseResponse_run.
  destruct (extract _ response); [reflexivity |].
  unfold emit, ret. cbn. now rewrite <- List.app_assoc.
Qed.

(** One iteration of the loop of [chat]. *)
Lemma chat_loop_step p rest msgs tr :
  cascade (p :: rest) msgs tr =
  match usable (key_of apiKeys p) with
  | None => cascade rest msgs (tr ++ [EvWarnSkip p])
  | Some key =>
      match try_chat p msgs key tr with
      | (inr (Some result), tr1) => (inr result, tr1)
      | (inr None, tr1) => cascade rest msgs tr1
      | (inl error, tr1) => (inl error, tr1)
      end
  end.
Proof.
  cbn [chat_loop].
  destruct (usable (key_of apiKeys p)) as [key |]; [| reflexivity].
  unfold bind.
  destruct (try_chat p msgs key tr) as [[error | [result |]] tr1]; reflexivity.
Qed.

(** A provider that gives no result is passed over, with the trace the
    description predicts. *)
Lemma no_result_at_chat_try p msgs key tr tr' :
  no_result_at fetch random p msgs key tr = Some tr' ->
  try_chat p msgs key tr = (inr None, tr').
Proof.
  unfold no_result_at. rewrite chat_try_run.
  destruct (try_provider p msgs key tr) as [[error | response] tr1].
  - now intros [= <-].
  - destruct (truthy response); [| now intros [= <-]].
    rewrite extract_spec.
    destruct (structure_missing _ response); [now intros [= <-] | discriminate].
Qed.

Lemma fails_at_no_result p msgs key tr tr' :
  fails_at fetch random p msgs key tr = Some tr' ->
  no_result_at fetch random p msgs key tr = Some tr'.
Proof.
  unfold fails_at, no_result_at.
  destruct (try_provider p msgs key tr) as [[error | response] tr1];
    [auto | discriminate].
Qed.

Lemma all_skipped_or_failed_without_result providers msgs : forall tr tr',
  all_skipped_or_failed fetch random apiKeys providers msgs tr = Some tr' ->
  all_without_result fetch random apiKeys providers msgs tr = Some tr'.
Proof.
  induction providers as [| p rest IH]; intros tr tr'; cbn; [auto |].
  destruct (usable (key_of apiKeys p)) as [key |]; [| apply IH].
  destruct (fails_at fetch random p msgs key tr) as [tr1 |] eqn:Hf; [| discriminate].
  rewrite (fails_at_no_result _ _ _ _ _ Hf). apply IH.
Qed.

(** The cascade passes over a prefix of providers without result. *)
Lemma chat_loop_passes pre rest msgs : forall tr tr0,
  all_without_result fetch random apiKeys pre msgs tr = Some tr0 ->
  cascade (pre ++ rest) msgs tr = cascade rest msgs tr0.
Proof.
  induction pre as [| p pre IH]; intros tr tr0; cbn [all_without_result List.app].
  - now intros [= ->].
  - rewrite chat_loop_step.
    destruct (usable (key_of apiKeys p)) as [key |]; [| apply IH].
    destruct (no_result_at fetch random p msgs key tr) as [tr1 |] eqn:Hn; [| discriminate].
    rewrite (no_result_at_chat_try _ _ _ _ _ Hn). apply IH.
Qed.

(** The retry policy of a provider makes at most [MAX_RETRIES] requests and
    touches no other provider. *)
Lemma tryProviderWithBackoff_events p msgs key tr :
  exists d,
    snd (try_provider p msgs key tr) = tr ++ d /\
    Forall (retry_event p) d /\
    (requests_to p d <= MAX_RETRIES)%nat.
Proof. apply retry_loop_events. Qed.

Lemma retry_event_provider p ev : retry_event p ev -> provider_event p ev.
Proof. destruct ev; cbn; tauto. Qed.

Lemma chat_try_events p msgs key tr :
  exists d,
    snd (try_chat p msgs key tr) = tr ++ d /\ Forall (provider_event p) d.
Proof.
  rewrite chat_try_run.
  destruct (tryProviderWithBackoff_events p msgs key tr) as (d & Hd & Hev & _).
  pose proof (List.Forall_impl (provider_event p) (retry_event_provider p) Hev) as Hev'.
  destruct (try_provider p msgs key tr) as [[error | response] tr1];
    cbn [snd] in Hd; subst tr1.
  - exists (d ++ [EvErrorFailed p error]). cbn [snd].
    split; [now rewrite List.app_assoc |].
    apply List.Forall_app. split; [assumption | repeat constructor].
  - destruct (truthy response); [| exists d; auto].
    destruct (extract _ response); [exists d; auto |].
    exists (d ++ [EvErrorParse p response; EvErrorFailed p (parse_error p)]). cbn [snd].
    split; [now rewrite List.app_assoc |].
    apply List.Forall_app. split; [assumption | repeat constructor].
Qed.

Lemma cascade_event_cons p providers ev :
  cascade_event apiKeys providers ev -> cascade_event apiKeys (p :: providers) ev.
Proof. destruct ev; cbn; tauto. Qed.

Lemma provider_event_cascade p key providers ev :
  usable (key_of apiKeys p) = Some key ->
  provider_event p ev -> cascade_event apiKeys (p :: providers) ev.
Proof.
  intros Hk. destruct ev; cbn; try tauto; intros ->; (split; [auto | congruence]).
Qed.

(** The cascade only requests providers that have a usable key, and only
    warns of a skip for those that have none. *)
Lemma chat_loop_events providers msgs : forall tr,
  exists d,
    snd (cascade providers msgs tr) = tr ++ d /\
    Forall (cascade_event apiKeys providers) d.
Proof.
  induction providers as [| p rest IH]; intros tr.
  - exists []. cbn. now rewrite List.app_nil_r.
  - rewrite chat_loop_step.
    destruct (usable (key_of apiKeys p)) as [key |] eqn:Hk.
    + destruct (chat_try_events p msgs key tr) as (d & Hd & Hev).
      pose proof (List.Forall_impl (cascade_event apiKeys (p :: rest))
                    (fun ev => provider_event_cascade p key rest ev Hk) Hev) as Hev'.
      destruct (try_chat p msgs key tr) as [[error | [result |]] tr1];
        cbn [snd] in Hd; subst tr1; try (exists d; now auto).
      destruct (IH (tr ++ d)) as (d' & Hd' & Hev'').
      exists (d ++ d'). split; [now rewrite Hd', List.app_assoc |].
      apply List.Forall_app. split; [assumption |].
      apply (List.Forall_impl _ (cascade_event_cons p rest) Hev'').
    + destruct (IH (tr ++ [EvWarnSkip p])) as (d & Hd & Hev).
      exists ([EvWarnSkip p] ++ d). split; [now rewrite Hd, <- List.app_assoc |].
      constructor; [cbn; auto |].
      apply (List.Forall_impl _ (cascade_event_cons p rest) Hev).
Qed.

(** Passing over a list of providers leaves every other provider's endpoint
    untouched. *)
Lemma all_without_result_requests pre msgs tr tr0 q :
  all_without_result fetch random apiKeys pre msgs tr = Some tr0 ->
  ~ In q pre ->
  requests_to q tr0 = requests_to q tr.
Proof.
  intros Hpre Hq.
  pose proof (chat_loop_passes pre [] msgs tr tr0 Hpre) as Hpass.
  rewrite List.app_nil_r in Hpass.
  destruct (chat_loop_events pre msgs tr) as (d & Hd & Hev).
  rewrite Hpass in Hd. cbn in Hd. subst tr0.
  rewrite requests_to_app. unfold requests_to.
  rewrite (count_none (is_request q) (cascade_event apiKeys pre) d); [lia | | assumption].
  intros [r req | | | | |]; cbn; try reflexivity.
  intros [Hin _]. destruct (Provider_eqb q r) eqn:E; [| reflexivity].
  apply Provider_eqb_eq in E. now subst.
Qed.

Lemma tryProviderWithBackoff_requests p msgs key tr q :
  q <> p ->
  requests_to q (snd (try_provider p msgs key tr)) = requests_to q tr.
Proof.
  intros Hq.
  destruct (tryProviderWithBackoff_events p msgs key tr) as (d & -> & Hev & _).
  rewrite requests_to_app. unfold requests_to.
  rewrite (count_none (is_request q) (retry_event p) d); [lia | | assumption].
  intros [r req | | | | |]; cbn; try reflexivity.
  intros ->. destruct (Provider_eqb q p) eqn:E; [| reflexivity].
  apply Provider_eqb_eq in E. contradiction.
Qed.

Lemma cascade_order_nodup : NoDup PROVIDER_CASCADE_ORDER.
Proof.
  apply NoDup_ListNoDup. unfold PROVIDER_CASCADE_ORDER.
  repeat (constructor; [cbn; intuition discriminate |]). constructor.
Qed.

Local Abbreviation run_chat := (chat fetch random apiKeys).

(** A result of the retry policy is the JSON body of a 2xx response. *)
Lemma retry_loop_returns n : forall attempt last p msgs key tr v tr1,
  retry_loop n attempt last p msgs key tr = (inr v, tr1) ->
  exists tr0 r,
    fetch tr0 (request_of p msgs key) = Responded r /\
    Response.ok r = true /\ Response.json r = inr v /\
    tr1 = tr0 ++ [EvFetch p (request_of p msgs key)].
Proof.
  induction n as [| n IH]; intros attempt last p msgs key tr v tr1.
  - discriminate.
  - rewrite retry_loop_step.
    destruct (call p msgs key tr) as [[error | w] t] eqn:Hc.
    + destruct (retryable error); [apply IH | discriminate].
    + intros [= <- <-]. apply makeApiCall_returns in Hc as [(r & Hr & Hok & Hj) ->].
      exists tr, r. auto.
Qed.

(** The loop of [chat] throws nothing but the aggregate error. *)
Lemma chat_loop_throws providers msgs : forall tr e tr',
  cascade providers msgs tr = (inl e, tr') -> e = new_Error aggregate_message.
Proof.
  induction providers as [| p rest IH]; intros tr e tr'.
  - now intros [= <- _].
  - rewrite chat_loop_step.
    destruct (usable (key_of apiKeys p)) as [key |]; [| apply IH].
    rewrite chat_try_run.
    destruct (try_provider p msgs key tr) as [[error | response] tr1]; [apply IH |].
    destruct (truthy response); [| apply IH].
    destruct (extract _ response); [discriminate | apply IH].
Qed.

(** When every endpoint answers 2xx with a falsy body, the cascade ends in
    the aggregate failure and logs no error on the way. *)
Lemma chat_loop_all_falsy providers msgs :
  (forall tr req, falsy_2xx (fetch tr req)) ->
  forall tr, exists d,
    cascade providers msgs tr = (inl (new_Error aggregate_message), tr ++ d) /\
    Forall (fun ev => error_log ev = false) d.
Proof.
  intros Hall.
  induction providers as [| p rest IH]; intros tr.
  - exists []. cbn. now rewrite List.app_nil_r.
  - rewrite chat_loop_step.
    destruct (usable (key_of apiKeys p)) as [key |].
    + rewrite chat_try_run. unfold tryProviderWithBackoff, MAX_RETRIES.
      rewrite retry_loop_step.
      specialize (Hall tr (request_of p msgs key)) as Hf.
      destruct (fetch tr (request_of p msgs key)) as [msg | r | st msg] eqn:Hr;
        [contradiction | | contradiction].
      destruct Hf as (Hok & v & Hj & Hv).
      assert (call p msgs key tr = (inr v, tr ++ [EvFetch p (request_of p msgs key)])) as ->
        by (apply makeApiCall_returns; split; [exists r |]; auto).
      rewrite Hv.
      destruct (IH (tr ++ [EvFetch p (request_of p msgs key)])) as (d & -> & Hd).
      exists ([EvFetch p (request_of p msgs key)] ++ d).
      split; [now rewrite <- List.app_assoc |].
      constructor; [reflexivity | assumption].
    + destruct (IH (tr ++ [EvWarnSkip p])) as (d & -> & Hd).
      exists ([EvWarnSkip p] ++ d).
      split; [now rewrite <- List.app_assoc |].
      constructor; [reflexivity | assumption].
Qed.

(** With no usable key at all, the cascade only logs the skips. *)
Lemma chat_loop_all_skipped providers msgs :
  (forall q, usable (key_of apiKeys q) = None) ->
  forall tr,
    cascade providers msgs tr =
    (inl (new_Error aggregate_message), tr ++ List.map EvWarnSkip providers).
Proof.
  intros Hall.
  induction providers as [| p rest IH]; intros tr.
  - cbn. now rewrite List.app_nil_r.
  - rewrite chat_loop_step, Hall, IH. cbn [List.map]. now rewrite <- List.app_assoc.
Qed.

Lemma usable_none k : usable k = None <-> k = None \/ k = Some "".
Proof.
  destruct k as [s |]; cbn; [| tauto].
  destruct (String.eqb_spec s ""); subst; split; try tauto; try discriminate.
  intros [H | [= H]]; [discriminate | contradiction].
Qed.

End Facts.

(** ** The cascade controller *)

Section Cascade.

Variable fetch : Trace -> Request -> FetchResult.
Variable random : Trace -> spec_float.
Variable apiKeys : ApiKeys.t.

Local Abbreviation call := (makeApiCall fetch).
Local Abbreviation retry_loop := (tryProviderWithBackoff_loop fetch random).
Local Abbreviation try_provider := (tryProviderWithBackoff fetch random).
Local Abbreviation cascade := (chat_loop fetch random apiKeys).
Local Abbreviation run_chat := (chat fetch random apiKeys).

(** C1, amended.  Let [p] be a provider of the cascade order with a non-empty
    credential whose call, made once every provider before it has been
    skipped or has given no result, returns (within the retry policy) a
    truthy response from which [parseResponse] extracts [text].  Then [chat]
    resolves with [text] and the identifier [p], at the trace of that call,
    and no provider after [p] in the cascade order receives a request. *)
Theorem C1_first_result_wins pre p post msgs key tr tr0 response tr1 text :
  PROVIDER_CASCADE_ORDER = pre ++ p :: post ->
  all_without_result fetch random apiKeys pre msgs tr = Some tr0 ->
  usable (key_of apiKeys p) = Some key ->
  try_provider p msgs key tr0 = (inr response, tr1) ->
  truthy response = true ->
  extract (type (PROVIDER_CONFIG p)) response = Some text ->
  run_chat msgs tr = (inr (ChatResult.Build text p), tr1) /\
  forall q, In q post -> requests_to q tr1 = requests_to q tr.
Proof.
  intros Horder Hpre Hkey Hcall Htruthy Htext. split.
  - unfold chat. rewrite Horder, (chat_loop_passes _ _ _ pre (p :: post) msgs tr tr0 Hpre).
    rewrite chat_loop_step, Hkey, chat_try_run, Hcall, Htruthy, Htext. reflexivity.
  - intros q Hq.
    pose proof cascade_order_nodup as Hnd. rewrite Horder in Hnd.
    apply NoDup_app in Hnd as (_ & Hdisj & Hnd).
    apply NoDup_cons in Hnd as [Hp _].
    apply list_elem_of_In in Hq.
    assert (q <> p) as Hqp by (intros ->; contradiction).
    assert (~ In q pre) as Hqpre.
    { intros Hin. apply list_elem_of_In in Hin.
      apply (Hdisj q Hin). now apply list_elem_of_further. }
    pose proof (tryProviderWithBackoff_requests fetch random p msgs key tr0 q Hqp) as Hreq.
    rewrite Hcall in Hreq. cbn [snd] in Hreq. rewrite Hreq.
    apply (all_without_result_requests fetch random apiKeys pre msgs tr tr0 q Hpre Hqpre).
Qed.

(** C2.  When every provider of the cascade, tried in turn, is skipped for
    an empty credential or fails after its retry policy, [chat] rejects with
    the one aggregate error, whose message names no provider; and whatever
    the providers do, no error other than this one leaves [chat]. *)
Theorem C2_exhausted_cascade_rejects msgs tr tr' :
  all_skipped_or_failed fetch random apiKeys PROVIDER_CASCADE_ORDER msgs tr = Some tr' ->
  run_chat msgs tr = (inl (new_Error aggregate_message), tr') /\
  (forall p, occurs_in (Provider_name p) aggregate_message = false) /\
  (forall msgs0 tr0 e tr1,
     run_chat msgs0 tr0 = (inl e, tr1) -> e = new_Error aggregate_message).
Proof.
  intros Hall. split; [| split].
  - apply all_skipped_or_failed_without_result in Hall.
    pose proof (chat_loop_passes fetch random apiKeys
                  PROVIDER_CASCADE_ORDER [] msgs tr tr' Hall) as Hpass.
    rewrite List.app_nil_r in Hpass. unfold chat. now rewrite Hpass.
  - intros p. destruct p; vm_compute; reflexivity.
  - intros msgs0 tr0 e tr1. apply chat_loop_throws.
Qed.

(** C9.  A provider whose credential is empty or missing is never called:
    over a whole run of [chat] it receives no request, no retry is announced
    for it and no failure is logged against it.  The cascade goes on with
    the next provider after logging the skip; and when every provider is
    skipped, [chat] ends with the aggregate failure, having logged the seven
    skips. *)
Theorem C9_no_credential_never_called p rest msgs tr :
  key_of apiKeys p = None \/ key_of apiKeys p = Some "" ->
  (requests_to p (snd (run_chat msgs tr)) = requests_to p tr /\
   retries_of p (snd (run_chat msgs tr)) = retries_of p tr /\
   failures_of p (snd (run_chat msgs tr)) = failures_of p tr) /\
  cascade (p :: rest) msgs tr = cascade rest msgs (tr ++ [EvWarnSkip p]) /\
  ((forall q, key_of apiKeys q = None \/ key_of apiKeys q = Some "") ->
   run_chat msgs tr =
   (inl (new_Error aggregate_message),
    tr ++ List.map EvWarnSkip PROVIDER_CASCADE_ORDER)).
Proof.
  intros Hkey. apply usable_none in Hkey. split; [| split].
  - unfold chat.
    destruct (chat_loop_events fetch random apiKeys PROVIDER_CASCADE_ORDER msgs tr)
      as (d & -> & Hev).
    unfold requests_to, retries_of, failures_of. rewrite !count_app.
    assert (forall f,
              (forall ev, cascade_event apiKeys PROVIDER_CASCADE_ORDER ev -> f ev = false) ->
              count f d = 0%nat) as Hzero
      by (intros f Hf; apply (count_none f _ d Hf Hev)).
    assert (forall q, usable (key_of apiKeys q) <> None -> Provider_eqb p q = false) as Hne.
    { intros q Hq. destruct (Provider_eqb p q) eqn:E; [| reflexivity].
      apply Provider_eqb_eq in E. now subst. }
    rewrite !Hzero; [lia | | |];
      intros [q req | | | q st dl | q err | q resp]; cbn; try reflexivity;
      intros [_ Hq]; now apply Hne.
  - now rewrite chat_loop_step, Hkey.
  - intros Hall. apply chat_loop_all_skipped.
    intros q. apply usable_none, Hall.
Qed.

(** C10.  When the call of a provider with a credential returns a falsy
    response, which is the JSON body of a 2xx answer, the cascade goes on
    with the next provider from the very trace the call left: no result is
    returned and nothing is logged, neither a parsing error nor a failure.
    When every endpoint answers so, [chat] ends with the aggregate failure
    and its trace holds no more error lines than before. *)
Theorem C10_falsy_body_passes_silently p key rest msgs tr response tr1 :
  usable (key_of apiKeys p) = Some key ->
  try_provider p msgs key tr = (inr response, tr1) ->
  truthy response = false ->
  (exists tr0 r,
     fetch tr0 (request_of p msgs key) = Responded r /\
     Response.ok r = true /\ Response.json r = inr response /\
     tr1 = tr0 ++ [EvFetch p (request_of p msgs key)]) /\
  cascade (p :: rest) msgs tr = cascade rest msgs tr1 /\
  ((forall tr0 req, falsy_2xx (fetch tr0 req)) ->
   exists tr',
     run_chat msgs tr = (inl (new_Error aggregate_message), tr') /\
     count error_log tr' = count error_log tr).
Proof.
  intros Hkey Hcall Hfalsy. split; [| split].
  - apply (retry_loop_returns fetch random MAX_RETRIES 0 ThrowUndefined p msgs key tr).
    exact Hcall.
  - now rewrite chat_loop_step, Hkey, chat_try_run, Hcall, Hfalsy.
  - intros Hall.
    destruct (chat_loop_all_falsy fetch random apiKeys PROVIDER_CASCADE_ORDER msgs Hall tr)
      as (d & Hd & Hlog).
    exists (tr ++ d). split; [exact Hd |].
    rewrite count_app, (count_none error_log _ d (fun ev H => H) Hlog). lia.
Qed.

End Cascade.

(** ** The retry policy *)

Section Retry.

Variable fetch : Trace -> Request -> FetchResult.
Variable random : Trace -> spec_float.
Variable apiKeys : ApiKeys.t.

Local Abbreviation call := (makeApiCall fetch).
Local Abbreviation retry_loop := (tryProviderWithBackoff_loop fetch random).
Local Abbreviation try_provider := (tryProviderWithBackoff fetch random).
Local Abbreviation cascade := (chat_loop fetch random apiKeys).

Lemma makeApiCall_requests p msgs key tr :
  requests_to p (snd (call p msgs key tr)) = (requests_to p tr + 1)%nat.
Proof. now rewrite makeApiCall_trace, requests_to_app, requests_to_fetch. Qed.

(** The trace never loses a request. *)
Lemma retry_loop_requests_mono n attempt last p msgs key tr :
  (requests_to p tr <= requests_to p (snd (retry_loop n attempt last p msgs key tr)))%nat.
Proof.
  destruct (retry_loop_events fetch random n attempt last p msgs key tr) as (d & -> & _).
  rewrite requests_to_app. lia.
Qed.

(** An iteration of the loop begins with a request. *)
Lemma retry_loop_requests_first n attempt last p msgs key tr :
  (requests_to p tr + 1 <=
   requests_to p (snd (retry_loop (S n) attempt last p msgs key tr)))%nat.
Proof.
  rewrite retry_loop_step.
  pose proof (makeApiCall_requests p msgs key tr) as Hreq.
  destruct (call p msgs key tr) as [[error | v] tr1]; cbn [snd] in *; [| lia].
  destruct (retryable error); cbn [snd]; [| lia].
  rewrite backoff_run. cbn [snd].
  etransitivity; [| apply retry_loop_requests_mono].
  rewrite requests_to_app. lia.
Qed.

(** C3.  When an attempt fails, the failure is retryable exactly when it
    carries status 429 or a status of 500 or more.  A retryable failure
    backs off and goes round the loop again, so that another request is made
    whenever iterations remain.  Any other failure, one without a status
    included, ends the retry policy at once with that very error, after the
    single request of this attempt. *)
Theorem C3_retryable_or_fail_fast p msgs key n attempt last tr error tr1 :
  call p msgs key tr = (inl error, tr1) ->
  (retryable error = true <->
   status_of error = Some 429 \/ exists s, status_of error = Some s /\ 500 <= s) /\
  (retryable error = true ->
   retry_loop (S n) attempt last p msgs key tr =
   retry_loop n (S attempt) error p msgs key (snd (backoff random p attempt error tr1)) /\
   ((0 < n)%nat ->
    (requests_to p tr + 2 <=
     requests_to p (snd (retry_loop (S n) attempt last p msgs key tr)))%nat)) /\
  (retryable error = false ->
   retry_loop (S n) attempt last p msgs key tr = (inl error, tr1) /\
   requests_to p tr1 = (requests_to p tr + 1)%nat).
Proof.
  intros Hcall.
  pose proof (makeApiCall_requests p msgs key tr) as Hreq.
  rewrite Hcall in Hreq. cbn [snd] in Hreq.
  split; [| split].
  - unfold retryable. destruct (status_of error) as [s |].
    + rewrite orb_true_iff, Z.eqb_eq, Z.leb_le. split.
      * intros [-> | Hs]; [now left | right; eauto].
      * intros [[= ->] | (s' & [= <-] & Hs)]; auto.
    + split; [discriminate | intros [? | (s & ? & _)]; discriminate].
  - intros Hretry.
    assert (retry_loop (S n) attempt last p msgs key tr =
            retry_loop n (S attempt) error p msgs key
              (snd (backoff random p attempt error tr1))) as Hstep
      by now rewrite retry_loop_step, Hcall, Hretry.
    split; [exact Hstep |].
    intros Hn. rewrite Hstep. destruct n as [| n]; [lia |].
    etransitivity; [| apply retry_loop_requests_first].
    rewrite backoff_run. cbn [snd]. rewrite requests_to_app. lia.
  - intros Hfast. split; [| exact Hreq].
    now rewrite retry_loop_step, Hcall, Hfast.
Qed.

(** C6.  The retry policy never makes more than three requests.  When three
    attempts in a row fail, the first two retryably, the policy throws the
    error of the third attempt, after exactly three requests; and the
    cascade, having logged it as the failure of this provider, goes on with
    the next provider. *)
Theorem C6_three_attempts_then_next p key rest msgs tr e1 t1 e2 t2 e3 t3 :
  usable (key_of apiKeys p) = Some key ->
  call p msgs key tr = (inl e1, t1) ->
  retryable e1 = true ->
  call p msgs key (snd (backoff random p 0 e1 t1)) = (inl e2, t2) ->
  retryable e2 = true ->
  call p msgs key (snd (backoff random p 1 e2 t2)) = (inl e3, t3) ->
  (forall q msgs0 key0 tr0,
     (requests_to q (snd (try_provider q msgs0 key0 tr0)) <= requests_to q tr0 + 3)%nat) /\
  exists tr',
    try_provider p msgs key tr = (inl e3, tr') /\
    requests_to p tr' = (requests_to p tr + 3)%nat /\
    cascade (p :: rest) msgs tr = cascade rest msgs (tr' ++ [EvErrorFailed p e3]).
Proof.
  intros Hkey H1 Hr1 H2 Hr2 H3. split.
  - intros q msgs0 key0 tr0.
    destruct (tryProviderWithBackoff_events fetch random q msgs0 key0 tr0)
      as (d & -> & _ & Hn).
    rewrite requests_to_app. unfold MAX_RETRIES in Hn. lia.
  - pose proof (makeApiCall_requests p msgs key tr) as Q1.
    pose proof (makeApiCall_requests p msgs key (snd (backoff random p 0 e1 t1))) as Q2.
    pose proof (makeApiCall_requests p msgs key (snd (backoff random p 1 e2 t2))) as Q3.
    rewrite H1 in Q1. rewrite H2 in Q2. rewrite H3 in Q3.
    rewrite backoff_run in Q2, Q3. cbn [snd] in Q1, Q2, Q3.
    rewrite requests_to_app in Q2, Q3.
    change (requests_to p [EvWarnRetry p _ _; EvSleep _]) with 0%nat in Q2, Q3.
    assert (exists tr',
              try_provider p msgs key tr = (inl e3, tr') /\
              requests_to p tr' = (requests_to p tr + 3)%nat) as (tr' & Htry & Hreq).
    { unfold tryProviderWithBackoff, MAX_RETRIES.
      rewrite retry_loop_step, H1, Hr1, retry_loop_step, H2, Hr2, retry_loop_step, H3.
      destruct (retryable e3).
      - eexists. split; [reflexivity |].
        rewrite backoff_run. cbn [snd]. rewrite requests_to_app.
        change (requests_to p [EvWarnRetry p _ _; EvSleep _]) with 0%nat. lia.
      - eexists. split; [reflexivity | lia]. }
    exists tr'. split; [exact Htry |]. split; [exact Hreq |].
    now rewrite chat_loop_step, Hkey, chat_try_run, Htry.
Qed.

End Retry.

(** ** The provider adapter *)

Lemma lookup_map {A B : Type} (f : A -> B) (l : list A) (i : nat) (x : A) :
  l !! i = Some x -> List.map f l !! i = Some (f x).
Proof.
  change (List.map f l) with (f <$> l).
  intros H. now rewrite list_lookup_fmap, H.
Qed.

(** The outcome of a call is the network's answer to the request of the
    call, and to nothing else. *)
Lemma makeApiCall_answer fetch fetch' p msgs key tr :
  fetch' tr (request_of p msgs key) = fetch tr (request_of p msgs key) ->
  makeApiCall fetch' p msgs key tr = makeApiCall fetch p msgs key tr.
Proof. unfold makeApiCall. now intros ->. Qed.

(** C7.  What [makeApiCall] passes to [fetch] for a conversation sent to a
    provider of the native, key-in-the-query-string kind: the call makes one
    request, a POST, and its outcome is the network's answer to that very
    request.  The list [contents] of the body has one entry per message, in order; entry [i] wraps the text of message
    [i] as [parts: [{text}]], with role "model" when the message's role is
    "assistant" and the message's own role otherwise.  The body carries
    [maxOutputTokens] 32768 and [temperature] 0.7 under [generationConfig].
    The credential is the [key] parameter of the URL's query string; the
    only header is the content type, so there is no Authorization header,
    and the body does not depend on the credential. *)
Theorem C7_native_request fetch p msgs key tr :
  type (PROVIDER_CONFIG p) = gemini_native ->
  snd (makeApiCall fetch p msgs key tr) = tr ++ [EvFetch p (request_of p msgs key)] /\
  (forall fetch',
     fetch' tr (request_of p msgs key) = fetch tr (request_of p msgs key) ->
     makeApiCall fetch' p msgs key tr = makeApiCall fetch p msgs key tr) /\
  method (request_of p msgs key) = "POST" /\
  (exists contents,
     get (body (request_of p msgs key)) "contents" = Some (VArr contents) /\
     length contents = length msgs /\
     forall i m, msgs !! i = Some m ->
       exists entry,
         contents !! i = Some entry /\
         get entry "parts" = Some (VArr [VObj [("text", VStr (content m))]]) /\
         (role m = assistant -> get entry "role" = Some (VStr "model")) /\
         (role m <> assistant -> get entry "role" = Some (VStr (Role_name (role m))))) /\
  opt_get (opt_get (body (request_of p msgs key)) "generationConfig") "maxOutputTokens"
    = VNum (num_of_Z 32768) /\
  opt_get (opt_get (body (request_of p msgs key)) "generationConfig") "temperature"
    = VNum num_0_7 /\
  url (request_of p msgs key) =
    baseURL (PROVIDER_CONFIG p) +:+ endpoint (PROVIDER_CONFIG p) +:+ "?key=" +:+ key /\
  headers (request_of p msgs key) = {[ "Content-Type" := "application/json" ]} /\
  headers (request_of p msgs key) !! "Authorization" = None /\
  forall key', body (request_of p msgs key') = body (request_of p msgs key).
Proof.
  intros Ht.
  split; [apply makeApiCall_trace |].
  split; [intros fetch'; apply makeApiCall_answer |].
  unfold request_of, request_url, request_headers, request_body.
  cbn [url method headers body].
  rewrite Ht. split_and!; try reflexivity.
  exists (List.map gemini_message msgs).
    split; [reflexivity |]. split; [apply List.length_map |].
    intros i m Hm. exists (gemini_message m).
    split; [now apply lookup_map |].
    unfold gemini_message. split; [reflexivity |].
    split; [now intros -> |].
    destruct (role m); [reflexivity | contradiction | reflexivity].
Qed.

(** C8.  What [makeApiCall] passes to [fetch] for a conversation sent to a
    provider of the bearer-token kind: the call makes one request, a POST,
    and its outcome is the network's answer to that very request.  The URL
    is the base URL followed by the endpoint; the Authorization header is "Bearer " followed by the credential; the
    body holds the provider's model identifier, the conversation message by
    message with each role and text as given, [max_tokens] 32768 and
    [temperature] 0.7. *)
Theorem C8_bearer_request fetch p msgs key tr :
  type (PROVIDER_CONFIG p) = openai_compatible ->
  snd (makeApiCall fetch p msgs key tr) = tr ++ [EvFetch p (request_of p msgs key)] /\
  (forall fetch',
     fetch' tr (request_of p msgs key) = fetch tr (request_of p msgs key) ->
     makeApiCall fetch' p msgs key tr = makeApiCall fetch p msgs key tr) /\
  method (request_of p msgs key) = "POST" /\
  url (request_of p msgs key) =
    baseURL (PROVIDER_CONFIG p) +:+ endpoint (PROVIDER_CONFIG p) /\
  headers (request_of p msgs key) !! "Authorization" = Some ("Bearer " +:+ key) /\
  headers (request_of p msgs key) !! "Content-Type" = Some "application/json" /\
  (exists m,
     model (PROVIDER_CONFIG p) = Some m /\
     get (body (request_of p msgs key)) "model" = Some (VStr m)) /\
  (exists messages,
     get (body (request_of p msgs key)) "messages" = Some (VArr messages) /\
     length messages = length msgs /\
     forall i m, msgs !! i = Some m ->
       messages !! i =
       Some (VObj [("role", VStr (Role_name (role m))); ("content", VStr (content m))])) /\
  get (body (request_of p msgs key)) "max_tokens" = Some (VNum (num_of_Z 32768)) /\
  get (body (request_of p msgs key)) "temperature" = Some (VNum num_0_7).
Proof.
  intros Ht.
  split; [apply makeApiCall_trace |].
  split; [intros fetch'; apply makeApiCall_answer |].
  unfold request_of, request_url, request_headers, request_body.
  cbn [url method headers body].
  rewrite Ht. split_and!.
  - reflexivity.
  - destruct p; try discriminate; reflexivity.
  - apply lookup_insert_eq.
  - rewrite lookup_insert_ne by discriminate. apply lookup_singleton_eq.
  - destruct p; try discriminate; eexists; split; reflexivity.
  - exists (List.map message_value msgs).
    split; [reflexivity |]. split; [apply List.length_map |].
    intros i m Hm. now apply (lookup_map message_value).
  - reflexivity.
  - reflexivity.
Qed.

(** C5, amended.  Extraction reads the first choice's message content
    (bearer-token shape) or the first candidate's first content part's text
    (native shape) and returns it when it is truthy, the empty string when
    it is falsy or when a step of the path is missing.  It fails, logging the
    response and throwing the parsing error that names the provider, exactly
    when the structure is missing in this sense: the response or its list of
    choices or candidates is null or undefined, or (native shape) the first
    candidate has a content whose parts are null or undefined. *)
Theorem C5_extraction p response tr :
  parseResponse p response tr =
  (if structure_missing (type (PROVIDER_CONFIG p)) response
   then (inl (parse_error p), tr ++ [EvErrorParse p response])
   else (inr (or_else (text_at (type (PROVIDER_CONFIG p)) response) (VStr "")), tr)) /\
  parse_error p =
    new_Error ("Could not parse a valid response from " +:+ Provider_name p +:+ ".") /\
  retryable (parse_error p) = false.
Proof.
  split; [| split; reflexivity].
  rewrite parseResponse_run, extract_spec.
  destruct (structure_missing _ response); reflexivity.
Qed.

(** The failing third attempt of the retry loop still backs off before the
    loop ends. *)
Lemma retry_loop_final_backoff fetch random attempt last p msgs key tr error tr1 :
  makeApiCall fetch p msgs key tr = (inl error, tr1) ->
  retryable error = true ->
  tryProviderWithBackoff_loop fetch random 1 attempt last p msgs key tr =
  (inl error,
   tr1 ++ [EvWarnRetry p (status_of error) (backoff_delay attempt (random tr1));
           EvSleep (backoff_delay attempt (random tr1))]).
Proof.
  intros Hcall Hretry.
  now rewrite retry_loop_step, Hcall, Hretry, backoff_run.
Qed.

(** C4, the code at the failing input: an endpoint that answers 500 to every
    request.  The retry policy makes three requests and sleeps three times,
    for 2500, 4500 and 8500 ms at a jitter of 500 ms; the last event of its
    trace is the sleep of 8500 ms that follows the third and final attempt,
    after which it throws the error of status 500. *)
Theorem C4_sleeps_after_final_attempt :
  fst (tryProviderWithBackoff three_down random_half cerebras hello "fake-cerebras-key" [])
    = inl error_500 /\
  fetched (snd (tryProviderWithBackoff three_down random_half cerebras hello
                  "fake-cerebras-key" []))
    = [cerebras; cerebras; cerebras] /\
  sleeps (snd (tryProviderWithBackoff three_down random_half cerebras hello
                 "fake-cerebras-key" []))
    = [num_of_Z 2500; num_of_Z 4500; num_of_Z 8500] /\
  List.last (snd (tryProviderWithBackoff three_down random_half cerebras hello
                    "fake-cerebras-key" [])) (EvWarnSkip cerebras)
    = EvSleep (num_of_Z 8500).
Proof. vm_compute. repeat split. Qed.

(** ** The test suite, run on the model *)

Example test_primary_succeeds :
  fst (chat (server handlers) random_half FAKE_API_KEYS hello [])
  = inr (ChatResult.Build (VStr "Response from Cerebras") cerebras).
Proof. vm_compute. reflexivity. Qed.

Example test_falls_back_to_secondary :
  fst (chat cerebras_down random_half FAKE_API_KEYS hello [])
  = inr (ChatResult.Build (VStr "Response from Gemini") gemini).
Proof. vm_compute. reflexivity. Qed.

Example test_falls_back_through_cascade :
  fst (chat two_down random_half FAKE_API_KEYS hello [])
  = inr (ChatResult.Build (VStr "Response from DeepSeek") deepseek).
Proof. vm_compute. reflexivity. Qed.

Example test_all_providers_fail :
  fst (chat three_down random_half FAKE_API_KEYS hello [])
  = inl (new_Error aggregate_message).
Proof. vm_compute. reflexivity. Qed.

Example test_skips_missing_keys :
  fst (chat (server handlers) random_half incompleteKeys hello [])
  = inr (ChatResult.Build (VStr "Response from Gemini") gemini).
Proof. vm_compute. reflexivity. Qed.

Example test_retries_on_429 :
  fst (chat cerebras_rate_limited random_half FAKE_API_KEYS hello [])
  = inr (ChatResult.Build (VStr "Success on retry") cerebras) /\
  requests_to cerebras (snd (chat cerebras_rate_limited random_half FAKE_API_KEYS hello []))
  = 2%nat.
Proof. vm_compute. split; reflexivity. Qed.

Example test_fails_fast_on_401 :
  fst (chat cerebras_unauthorized random_half FAKE_API_KEYS hello [])
  = inr (ChatResult.Build (VStr "Response from Gemini") gemini) /\
  requests_to cerebras (snd (chat cerebras_unauthorized random_half FAKE_API_KEYS hello []))
  = 1%nat.
Proof. vm_compute. split; reflexivity. Qed.

(** ** Concrete instances *)

(** C1 as stated fails.  The first provider has a credential and its call
    succeeds at the first attempt: the endpoint answers 200 and the retry
    policy returns the body, [null] in one environment, [{}] in the other.
    Yet [chat] resolves with the second provider, whose endpoint, later in
    the cascade order, has received a request. *)
Lemma C1_counterexample :
  usable (key_of FAKE_API_KEYS cerebras) = Some "fake-cerebras-key" /\
  (fst (tryProviderWithBackoff cerebras_null random_half cerebras hello
          "fake-cerebras-key" []) = inr VNull /\
   fst (chat cerebras_null random_half FAKE_API_KEYS hello [])
     = inr (ChatResult.Build (VStr "Response from Gemini") gemini) /\
   requests_to gemini (snd (chat cerebras_null random_half FAKE_API_KEYS hello []))
     = 1%nat) /\
  (fst (tryProviderWithBackoff cerebras_empty_object random_half cerebras hello
          "fake-cerebras-key" []) = inr (VObj []) /\
   fst (chat cerebras_empty_object random_half FAKE_API_KEYS hello [])
     = inr (ChatResult.Build (VStr "Response from Gemini") gemini) /\
   requests_to gemini (snd (chat cerebras_empty_object random_half FAKE_API_KEYS hello []))
     = 1%nat).
Proof. vm_compute. repeat split. Qed.

Lemma C1_witness :
  chat cerebras_down random_half FAKE_API_KEYS hello [] =
  (inr (ChatResult.Build (VStr "Response from Gemini") gemini),
   snd (tryProviderWithBackoff cerebras_down random_half gemini hello
          "fake-gemini-key" after_cerebras_down)) /\
  forall q, In q [deepseek; openrouter; mistral; together; groq] ->
    requests_to q (snd (tryProviderWithBackoff cerebras_down random_half gemini hello
                          "fake-gemini-key" after_cerebras_down))
    = requests_to q [].
Proof.
  apply (C1_first_result_wins cerebras_down random_half FAKE_API_KEYS
           [cerebras] gemini [deepseek; openrouter; mistral; together; groq]
           hello "fake-gemini-key" [] after_cerebras_down
           (gemini_reply "Response from Gemini"));
    vm_compute; reflexivity.
Defined.

Lemma C2_witness :
  all_skipped_or_failed three_down random_half incompleteKeys
    PROVIDER_CASCADE_ORDER hello []
  = Some (snd (chat three_down random_half incompleteKeys hello [])) /\
  chat three_down random_half incompleteKeys hello [] =
  (inl (new_Error aggregate_message),
   snd (chat three_down random_half incompleteKeys hello [])).
Proof.
  assert (all_skipped_or_failed three_down random_half incompleteKeys
            PROVIDER_CASCADE_ORDER hello []
          = Some (snd (chat three_down random_half incompleteKeys hello []))) as H
    by (vm_compute; reflexivity).
  split; [exact H |].
  exact (proj1 (C2_exhausted_cascade_rejects three_down random_half incompleteKeys
                  hello [] _ H)).
Defined.

Lemma C3_witness :
  makeApiCall cerebras_rate_limited cerebras hello "fake-cerebras-key" [] =
  (inl (ThrowError (JsError.Build
                      "API call to cerebras failed with status 429: Rate limit exceeded"
                      (Some 429))),
   [EvFetch cerebras (request_of cerebras hello "fake-cerebras-key")]) /\
  (requests_to cerebras [] + 2 <=
   requests_to cerebras
     (snd (tryProviderWithBackoff_loop cerebras_rate_limited random_half 3 0
             ThrowUndefined cerebras hello "fake-cerebras-key" [])))%nat.
Proof.
  assert (makeApiCall cerebras_rate_limited cerebras hello "fake-cerebras-key" [] =
          (inl (ThrowError (JsError.Build
                              "API call to cerebras failed with status 429: Rate limit exceeded"
                              (Some 429))),
           [EvFetch cerebras (request_of cerebras hello "fake-cerebras-key")])) as H
    by (vm_compute; reflexivity).
  split; [exact H |].
  apply (proj1 (proj2 (C3_retryable_or_fail_fast cerebras_rate_limited random_half
                         cerebras hello "fake-cerebras-key" 2 0 ThrowUndefined [] _ _ H)));
    [reflexivity | lia].
Defined.

Lemma C6_witness :
  exists tr',
    tryProviderWithBackoff three_down random_half cerebras hello "fake-cerebras-key" []
      = (inl error_500, tr') /\
    requests_to cerebras tr' = (requests_to cerebras [] + 3)%nat /\
    chat_loop three_down random_half FAKE_API_KEYS [cerebras; gemini] hello [] =
    chat_loop three_down random_half FAKE_API_KEYS [gemini] hello
      (tr' ++ [EvErrorFailed cerebras error_500]).
Proof.
  apply (C6_three_attempts_then_next three_down random_half FAKE_API_KEYS
           cerebras "fake-cerebras-key" [gemini] hello []
           error_500 attempt1 error_500 attempt2 error_500 attempt3);
    vm_compute; reflexivity.
Defined.

Lemma C7_witness :
  type (PROVIDER_CONFIG gemini) = gemini_native /\
  snd (makeApiCall (server handlers) gemini conversation "fake-gemini-key" []) =
    [] ++ [EvFetch gemini (request_of gemini conversation "fake-gemini-key")] /\
  url (request_of gemini conversation "fake-gemini-key") =
    "https://generativelanguage.googleapis.com/v1beta/models/gemini-2.5-flash-lite:generateContent?key=fake-gemini-key" /\
  headers (request_of gemini conversation "fake-gemini-key") !! "Authorization" = None.
Proof.
  split; [reflexivity |].
  destruct (C7_native_request (server handlers) gemini conversation "fake-gemini-key"
              [] eq_refl)
    as (Hsent & _ & _ & _ & _ & _ & Hurl & _ & Hauth & _).
  split; [exact Hsent |]. split; [exact Hurl | exact Hauth].
Defined.

Lemma C8_witness :
  type (PROVIDER_CONFIG deepseek) = openai_compatible /\
  snd (makeApiCall (server handlers) deepseek conversation "fake-deepseek-key" []) =
    [] ++ [EvFetch deepseek (request_of deepseek conversation "fake-deepseek-key")] /\
  url (request_of deepseek conversation "fake-deepseek-key") =
    "https://api.deepseek.com/v1/chat/completions" /\
  headers (request_of deepseek conversation "fake-deepseek-key") !! "Authorization"
    = Some "Bearer fake-deepseek-key".
Proof.
  split; [reflexivity |].
  destruct (C8_bearer_request (server handlers) deepseek conversation "fake-deepseek-key"
              [] eq_refl)
    as (Hsent & _ & _ & Hurl & Hauth & _).
  split; [exact Hsent |]. split; [exact Hurl | exact Hauth].
Defined.

Lemma C9_witness :
  (key_of incompleteKeys cerebras = None \/ key_of incompleteKeys cerebras = Some "") /\
  requests_to cerebras (snd (chat (server handlers) random_half incompleteKeys hello []))
    = requests_to cerebras [] /\
  chat_loop (server handlers) random_half incompleteKeys [cerebras; gemini] hello [] =
  chat_loop (server handlers) random_half incompleteKeys [gemini] hello
    ([] ++ [EvWarnSkip cerebras]).
Proof.
  assert (key_of incompleteKeys cerebras = None \/
          key_of incompleteKeys cerebras = Some "") as H by (right; reflexivity).
  split; [exact H |].
  destruct (C9_no_credential_never_called (server handlers) random_half incompleteKeys
              cerebras [gemini] hello [] H) as ((Hreq & _) & Hstep & _).
  split; [exact Hreq | exact Hstep].
Defined.

Lemma C10_witness :
  usable (key_of FAKE_API_KEYS cerebras) = Some "fake-cerebras-key" /\
  truthy VNull = false /\
  chat_loop all_null random_half FAKE_API_KEYS [cerebras; gemini] hello [] =
  chat_loop all_null random_half FAKE_API_KEYS [gemini] hello
    [EvFetch cerebras (request_of cerebras hello "fake-cerebras-key")] /\
  exists tr',
    chat all_null random_half FAKE_API_KEYS hello [] =
      (inl (new_Error aggregate_message), tr') /\
    count error_log tr' = count error_log [].
Proof.
  split; [reflexivity |]. split; [reflexivity |].
  destruct (C10_falsy_body_passes_silently all_null random_half FAKE_API_KEYS
              cerebras "fake-cerebras-key" [gemini] hello [] VNull
              [EvFetch cerebras (request_of cerebras hello "fake-cerebras-key")]
              eq_refl eq_refl eq_refl) as (_ & Hstep & Hall).
  split; [exact Hstep |].
  apply Hall. intros tr0 req. cbn.
  split; [reflexivity | exists VNull; split; reflexivity].
Defined.

(** C5 as stated fails.  A response whose first choice has no message, or
    whose first candidate has no content, lacks the structure that
    extraction reads, and its list is not empty; yet extraction yields the
    empty string, logs nothing and throws nothing. *)
Lemma C5_counterexample :
  (text_at openai_compatible (VObj [("choices", VArr [VObj []])]) = VUndefined /\
   parseResponse cerebras (VObj [("choices", VArr [VObj []])]) []
     = (inr (VStr ""), [])) /\
  (text_at gemini_native (VObj [("candidates", VArr [VObj []])]) = VUndefined /\
   parseResponse gemini (VObj [("candidates", VArr [VObj []])]) []
     = (inr (VStr ""), [])).
Proof. vm_compute. repeat split. Qed.

(** Extraction on the shapes the two dialects document. *)
Example extraction_well_formed :
  parseResponse cerebras (openai_reply "Response from Cerebras") []
    = (inr (VStr "Response from Cerebras"), []) /\
  parseResponse gemini (gemini_reply "Response from Gemini") []
    = (inr (VStr "Response from Gemini"), []).
Proof. split; reflexivity. Qed.

Example extraction_empty_list :
  parseResponse cerebras (VObj [("choices", VArr [])]) [] = (inr (VStr ""), []) /\
  parseResponse gemini (VObj [("candidates", VArr [])]) [] = (inr (VStr ""), []).
Proof. split; reflexivity. Qed.

Example extraction_fails :
  parseResponse cerebras (VObj []) []
    = (inl (new_Error "Could not parse a valid response from cerebras."),
       [EvErrorParse cerebras (VObj [])]) /\
  parseResponse gemini (VObj [("candidates", VArr [VObj [("content", VObj [])]])]) []
    = (inl (new_Error "Could not parse a valid response from gemini."),
       [EvErrorParse gemini (VObj [("candidates", VArr [VObj [("content", VObj [])]])])]).
Proof. split; reflexivity. Qed.

Example no_keys_at_all :
  chat (server handlers) random_half NO_API_KEYS hello [] =
  (inl (new_Error aggregate_message),
   [EvWarnSkip cerebras; EvWarnSkip gemini; EvWarnSkip deepseek; EvWarnSkip openrouter;
    EvWarnSkip mistral; EvWarnSkip together; EvWarnSkip groq]).
Proof. reflexivity. Qed.

(** The falsy JSON bodies: [null], [false], [0] and the empty string. *)
Example falsy_bodies :
  truthy VNull = false /\ truthy (VBool false) = false /\
  truthy (VNum (num_of_Z 0)) = false /\ truthy (VStr "") = false.
Proof. repeat split. Qed.

(** ** More on the provider adapter and the retry policy *)

Lemma fetched_app (a b : Trace) : fetched (a ++ b) = fetched a ++ fetched b.
Proof. apply List.flat_map_app. Qed.

Lemma sleeps_app (a b : Trace) : sleeps (a ++ b) = sleeps a ++ sleeps b.
Proof. apply List.flat_map_app. Qed.

Section Adapter.

Variable fetch : Trace -> Request -> FetchResult.
Variable random : Trace -> spec_float.

Local Abbreviation call := (makeApiCall fetch).
Local Abbreviation retry_loop := (tryProviderWithBackoff_loop fetch random).
Local Abbreviation try_provider := (tryProviderWithBackoff fetch random).

(** X1.  Whatever the endpoint does, a call makes exactly one request, the
    request of its provider.  It returns exactly the JSON body of a 2xx
    answer.  The error it throws otherwise is an [Error] object that carries
    a status exactly when the endpoint answered outside 200..299 with a body
    that could be read; the status is then that of the answer and the message
    quotes the provider, the status and the text of the answer.  An error
    without status comes from a rejected [fetch], from a body that cannot be
    read, or from a 2xx body that is not JSON. *)
Theorem X1_makeApiCall_outcome p msgs key tr result tr' :
  call p msgs key tr = (result, tr') ->
  tr' = tr ++ [EvFetch p (request_of p msgs key)] /\
  match result with
  | inr v =>
      exists r, fetch tr (request_of p msgs key) = Responded r /\
                Response.ok r = true /\ Response.json r = inr v
  | inl error =>
      exists err, error = ThrowError err /\
        match JsError.status err with
        | None =>
            fetch tr (request_of p msgs key) = NetworkError (JsError.message err) \/
            (exists st,
               fetch tr (request_of p msgs key) = Unreadable st (JsError.message err)) \/
            exists r, fetch tr (request_of p msgs key) = Responded r /\
                      Response.ok r = true /\
                      Response.json r = inl (JsError.message err)
        | Some s =>
            exists r, fetch tr (request_of p msgs key) = Responded r /\
                      Response.status r = s /\ (s < 200 \/ 299 < s) /\
                      JsError.message err =
                        "API call to " +:+ Provider_name p +:+
                        " failed with status " +:+ pretty s +:+ ": " +:+ Response.text r
        end
  end.
Proof.
  unfold makeApiCall.
  destruct (fetch tr _) as [msg | r | st msg] eqn:Hf.
  - intros [= <- <-]. split; [reflexivity |].
    eexists. split; [reflexivity |]. cbn. now left.
  - destruct (Response.ok r) eqn:Hok; cbn [negb].
    + destruct (Response.json r) as [msg | v] eqn:Hj; intros [= <- <-];
        (split; [reflexivity |]).
      * eexists. split; [reflexivity |]. cbn. right. right. exists r. auto.
      * exists r. auto.
    + intros [= <- <-]. split; [reflexivity |].
      eexists. split; [reflexivity |]. cbn. exists r.
      split; [reflexivity |]. split; [reflexivity |]. split; [| reflexivity].
      unfold Response.ok in Hok. apply andb_false_iff in Hok.
      destruct Hok as [H | H]; apply Z.leb_gt in H; lia.
  - intros [= <- <-]. split; [reflexivity |].
    eexists. split; [reflexivity |]. cbn. right. left. now exists st.
Qed.

(** X2.  A network failure and a 2xx answer whose body is not JSON are never
    retried: the retry policy throws the platform's error after the single
    request, without a warning and without sleeping. *)
Theorem X2_no_retry_without_status p msgs key tr msg :
  (fetch tr (request_of p msgs key) = NetworkError msg \/
   exists r, fetch tr (request_of p msgs key) = Responded r /\
             Response.ok r = true /\ Response.json r = inl msg) ->
  try_provider p msgs key tr =
  (inl (new_Error msg), tr ++ [EvFetch p (request_of p msgs key)]).
Proof.
  intros H.
  assert (call p msgs key tr =
          (inl (new_Error msg), tr ++ [EvFetch p (request_of p msgs key)])) as Hcall.
  { unfold makeApiCall. destruct H as [-> | (r & -> & Hok & Hj)]; [reflexivity |].
    now rewrite Hok, Hj. }
  unfold tryProviderWithBackoff, MAX_RETRIES.
  now rewrite retry_loop_step, Hcall.
Qed.

(** How the requests and the sleeps of the retry loop add up. *)
Lemma retry_loop_accounting n : forall attempt last p msgs key tr,
  exists d,
    snd (retry_loop n attempt last p msgs key tr) = tr ++ d /\
    fetched d = List.repeat p (length (fetched d)) /\
    retries_of p d = length (sleeps d) /\
    match fst (retry_loop n attempt last p msgs key tr) with
    | inr _ =>
        length (fetched d) = S (length (sleeps d)) /\ (length (fetched d) <= n)%nat
    | inl error =>
        (n = O /\ error = last /\ d = []) \/
        ((0 < n)%nat /\
         if retryable error
         then length (fetched d) = n /\ length (sleeps d) = n
         else length (fetched d) = S (length (sleeps d)) /\
              (length (fetched d) <= n)%nat)
    end.
Proof.
  induction n as [| n IH]; intros attempt last p msgs key tr.
  - exists []. cbn. rewrite List.app_nil_r. repeat split; auto.
  - rewrite retry_loop_step.
    pose proof (makeApiCall_trace fetch p msgs key tr) as Htr.
    destruct (call p msgs key tr) as [[error | v] tr1]; cbn [snd] in Htr; subst tr1.
    + destruct (retryable error) eqn:Hretry.
      * rewrite backoff_run. cbn [snd].
        match goal with |- context [retry_loop n _ _ _ _ _ (_ ++ ?evs)] =>
          destruct (IH (S attempt) error p msgs key
                      ((tr ++ [EvFetch p (request_of p msgs key)]) ++ evs))
            as (d & Hd & Hrep & Hwarn & Hcount);
          exists ([EvFetch p (request_of p msgs key)] ++ evs ++ d)
        end.
        split; [rewrite Hd; now rewrite <- !List.app_assoc |].
        unfold retries_of in *.
        rewrite !fetched_app, !sleeps_app, !count_app.
        assert (count (is_retry p) [EvFetch p (request_of p msgs key)] = 0%nat) as ->
          by reflexivity.
        assert (forall a b c,
                  count (is_retry p) [EvWarnRetry p a b; EvSleep c] = 1%nat) as ->
          by (intros; unfold count; cbn; now rewrite Provider_eqb_refl).
        cbn [fetched sleeps List.flat_map List.app List.length List.repeat].
        split; [congruence |]. split; [lia |].
        destruct (fst (retry_loop n (S attempt) error p msgs key _)) as [e' | v].
        -- right. split; [lia |].
           destruct Hcount as [(-> & -> & ->) | (Hn & Hcount)].
           ++ rewrite Hretry. cbn. auto.
           ++ destruct (retryable e'); lia.
        -- lia.
      * exists [EvFetch p (request_of p msgs key)]. cbn [snd fst].
        split; [reflexivity |]. split; [reflexivity |]. split; [reflexivity |].
        right. split; [lia |]. rewrite Hretry. cbn. split; [reflexivity | lia].
    + exists [EvFetch p (request_of p msgs key)]. cbn [snd fst].
      split; [reflexivity |]. split; [reflexivity |]. split; [reflexivity |].
      cbn. split; [reflexivity | lia].
Qed.

(** The retry loop throws what [makeApiCall] threw last, so never
    [undefined] once an attempt has been made. *)
Lemma retry_loop_throws_error n : forall attempt last p msgs key tr error,
  (0 < n)%nat \/ last <> ThrowUndefined ->
  fst (retry_loop n attempt last p msgs key tr) = inl error ->
  error <> ThrowUndefined.
Proof.
  induction n as [| n IH]; intros attempt last p msgs key tr error Hlast.
  - cbn. intros [= <-]. destruct Hlast; [lia | assumption].
  - rewrite retry_loop_step.
    destruct (call p msgs key tr) as [[e | v] tr1] eqn:Hcall; [| discriminate].
    apply makeApiCall_throws in Hcall as [err ->].
    destruct (retryable (ThrowError err)).
    + apply IH. now right.
    + cbn. now intros [= <-].
Qed.

(** X3.  The accounts of one run of the retry policy.  It makes between one
    and three requests, all to its own provider, and it sleeps as many times
    as it warns of a retry.  When it returns, or throws an error that is not
    retryable, it has slept once less than it has requested.  It throws a
    retryable error only after all three requests, and has then slept three
    times.  It never throws [undefined]. *)
Theorem X3_retry_accounts p msgs key tr :
  exists d,
    snd (try_provider p msgs key tr) = tr ++ d /\
    fetched d = List.repeat p (length (fetched d)) /\
    (1 <= length (fetched d) <= 3)%nat /\
    retries_of p d = length (sleeps d) /\
    match fst (try_provider p msgs key tr) with
    | inr _ => length (fetched d) = S (length (sleeps d))
    | inl error =>
        error <> ThrowUndefined /\
        if retryable error
        then length (fetched d) = 3%nat /\ length (sleeps d) = 3%nat
        else length (fetched d) = S (length (sleeps d))
    end.
Proof.
  unfold tryProviderWithBackoff, MAX_RETRIES.
  destruct (retry_loop_accounting 3 0 ThrowUndefined p msgs key tr)
    as (d & Hd & Hrep & Hwarn & Hcount).
  pose proof (retry_loop_throws_error 3 0 ThrowUndefined p msgs key tr) as Hdef.
  exists d. split; [exact Hd |]. split; [exact Hrep |].
  destruct (fst (retry_loop 3 0 ThrowUndefined p msgs key tr)) as [error | v].
  - destruct Hcount as [(Hn & _) | (_ & Hcount)]; [discriminate |].
    specialize (Hdef error (or_introl (Nat.lt_0_succ 2)) eq_refl).
    destruct (retryable error).
    + split; [lia |]. split; [exact Hwarn |]. split; [exact Hdef | exact Hcount].
    + split; [lia |]. split; [exact Hwarn |]. split; [exact Hdef | tauto].
  - split; [lia |]. split; [exact Hwarn |]. tauto.
Qed.

(** The sleeps of the retry loop follow the schedule, each with a draw of
    [Math.random()]. *)
Lemma retry_loop_schedule n : forall attempt last p msgs key tr,
  exists d rnds,
    snd (retry_loop n attempt last p msgs key tr) = tr ++ d /\
    sleeps d = schedule attempt rnds /\
    (length rnds <= n)%nat /\
    Forall (fun r => exists t, r = random t) rnds.
Proof.
  induction n as [| n IH]; intros attempt last p msgs key tr.
  - exists [], []. cbn. rewrite List.app_nil_r. repeat split; auto.
  - rewrite retry_loop_step.
    pose proof (makeApiCall_trace fetch p msgs key tr) as Htr.
    destruct (call p msgs key tr) as [[error | v] tr1]; cbn [snd] in Htr; subst tr1.
    + destruct (retryable error).
      * rewrite backoff_run. cbn [snd].
        match goal with |- context [retry_loop n _ _ _ _ _ (_ ++ ?evs)] =>
          destruct (IH (S attempt) error p msgs key
                      ((tr ++ [EvFetch p (request_of p msgs key)]) ++ evs))
            as (d & rnds & Hd & Hsleeps & Hlen & Hrnd);
          exists ([EvFetch p (request_of p msgs key)] ++ evs ++ d),
                 (random (tr ++ [EvFetch p (request_of p msgs key)]) :: rnds)
        end.
        split; [rewrite Hd; now rewrite <- !List.app_assoc |].
        rewrite !sleeps_app. cbn [sleeps List.flat_map List.app schedule List.length].
        split; [congruence |]. split; [lia |].
        constructor; [eauto | assumption].
      * exists [EvFetch p (request_of p msgs key)], []. cbn [snd].
        repeat split; auto. cbn. lia.
    + exists [EvFetch p (request_of p msgs key)], []. cbn [snd].
      repeat split; auto. cbn. lia.
Qed.

(** X4.  The sleeps of one run of the retry policy follow the exponential
    schedule: the sleep after attempt [i] lasts
    [INITIAL_BACKOFF_MS * 2^i + Math.random() * 1000], for at most three
    draws of [Math.random()], and the base of the delay is exactly 2000,
    4000 and 8000 ms for the attempts 0, 1 and 2. *)
Theorem X4_backoff_schedule p msgs key tr :
  (exists d rnds,
     snd (try_provider p msgs key tr) = tr ++ d /\
     sleeps d = schedule 0 rnds /\
     (length rnds <= 3)%nat /\
     Forall (fun r => exists t, r = random t) rnds) /\
  forall i r, (i < 3)%nat ->
    backoff_delay i r =
    SFadd prec emax (num_of_Z (2000 * 2 ^ Z.of_nat i))
      (SFmul prec emax r (num_of_Z 1000)).
Proof.
  split; [apply retry_loop_schedule |].
  intros i r Hi. unfold backoff_delay. f_equal.
  destruct i as [| [| [| i]]]; [reflexivity | reflexivity | reflexivity | lia].
Qed.

(** Every request of the retry loop is the same request. *)
Lemma retry_loop_same_request n : forall attempt last p msgs key tr,
  exists d,
    snd (retry_loop n attempt last p msgs key tr) = tr ++ d /\
    Forall (fun ev => match ev with
                      | EvFetch q req => q = p /\ req = request_of p msgs key
                      | _ => True
                      end) d.
Proof.
  induction n as [| n IH]; intros attempt last p msgs key tr.
  - exists []. cbn. rewrite List.app_nil_r. auto.
  - rewrite retry_loop_step.
    pose proof (makeApiCall_trace fetch p msgs key tr) as Htr.
    destruct (call p msgs key tr) as [[error | v] tr1]; cbn [snd] in Htr; subst tr1.
    + destruct (retryable error).
      * rewrite backoff_run. cbn [snd].
        match goal with |- context [retry_loop n _ _ _ _ _ (_ ++ ?evs)] =>
          destruct (IH (S attempt) error p msgs key
                      ((tr ++ [EvFetch p (request_of p msgs key)]) ++ evs))
            as (d & Hd & Hev);
          exists ([EvFetch p (request_of p msgs key)] ++ evs ++ d)
        end.
        split; [rewrite Hd; now rewrite <- !List.app_assoc |].
        cbn [List.app]. repeat (constructor; [cbn; auto |]). exact Hev.
      * exists [EvFetch p (request_of p msgs key)]. cbn [snd].
        split; [reflexivity | repeat constructor].
    + exists [EvFetch p (request_of p msgs key)]. cbn [snd].
      split; [reflexivity | repeat constructor].
Qed.

End Adapter.

(** ** More on the cascade *)

Lemma request_blocks_zero (providers : list Provider) :
  request_blocks providers (List.repeat 0%nat (length providers)) = [].
Proof.
  unfold request_blocks. induction providers as [| p rest IH]; [reflexivity |].
  cbn. exact IH.
Qed.

Lemma request_blocks_cons p k providers ks :
  request_blocks (p :: providers) (k :: ks) =
  List.repeat p k ++ request_blocks providers ks.
Proof. reflexivity. Qed.

Lemma request_blocks_length providers : forall ks,
  List.Forall2 (fun (_ : Provider) k => (k <= 3)%nat) providers ks ->
  (length (request_blocks providers ks) <= 3 * length providers)%nat.
Proof.
  induction providers as [| p rest IH]; intros ks H.
  - inversion H. cbn. lia.
  - inversion H as [| q k rest' ks' Hk Hrest]; subst.
    rewrite request_blocks_cons, List.length_app, List.repeat_length.
    specialize (IH ks' Hrest). cbn [length].
    rewrite Nat.mul_succ_r, (Nat.add_comm (3 * length rest) 3).
    now apply Nat.add_le_mono.
Qed.

Section Order.

Variable fetch : Trace -> Request -> FetchResult.
Variable random : Trace -> spec_float.
Variable apiKeys : ApiKeys.t.

Local Abbreviation try_provider := (tryProviderWithBackoff fetch random).
Local Abbreviation try_chat := (chat_try fetch random).
Local Abbreviation cascade := (chat_loop fetch random apiKeys).
Local Abbreviation run_chat := (chat fetch random apiKeys).

(** The requests of one iteration of the cascade are those of the retry
    policy. *)
Lemma chat_try_requests p msgs key tr :
  exists d k,
    snd (try_chat p msgs key tr) = tr ++ d /\
    fetched d = List.repeat p k /\ (k <= 3)%nat /\
    Forall (fun ev => match ev with
                      | EvFetch q req => q = p /\ req = request_of p msgs key
                      | _ => True
                      end) d.
Proof.
  rewrite chat_try_run.
  destruct (retry_loop_accounting fetch random 3 0 ThrowUndefined p msgs key tr)
    as (d & Hd & Hrep & _ & Hcount).
  destruct (retry_loop_same_request fetch random 3 0 ThrowUndefined p msgs key tr)
    as (d' & Hd' & Hev).
  unfold tryProviderWithBackoff, MAX_RETRIES.
  set (run := tryProviderWithBackoff_loop fetch random 3 0 ThrowUndefined p msgs key tr) in *.
  rewrite Hd in Hd'. apply List.app_inv_head in Hd'. subst d'.
  assert (length (fetched d) <= 3)%nat as Hk.
  { destruct (fst run) as [e | v]; [| lia].
    destruct Hcount as [(Hn & _) | (_ & Hcount)]; [discriminate |].
    destruct (retryable e); lia. }
  assert (forall logs,
            Forall (fun ev => match ev with EvFetch _ _ => False | _ => True end) logs ->
            exists d0 k,
              tr ++ d ++ logs = tr ++ d0 /\
              fetched d0 = List.repeat p k /\ (k <= 3)%nat /\
              Forall (fun ev => match ev with
                                | EvFetch q req => q = p /\ req = request_of p msgs key
                                | _ => True
                                end) d0) as Hlogs.
  { intros logs Hl. exists (d ++ logs), (length (fetched d)).
    split; [reflexivity |]. split; [| split; [exact Hk |]].
    - rewrite fetched_app, <- Hrep.
      assert (fetched logs = []) as ->; [| apply List.app_nil_r].
      induction Hl as [| ev logs Hlog _ IH]; [reflexivity |].
      destruct ev; cbn in *; try contradiction; exact IH.
    - apply List.Forall_app. split; [exact Hev |].
      revert Hl. apply List.Forall_impl. intros ev. destruct ev; tauto. }
  clear Hcount. destruct run as [[error | response] tr1];
    cbn [snd] in Hd; subst tr1.
  - cbn [snd]. rewrite <- List.app_assoc. apply Hlogs. repeat constructor.
  - destruct (truthy response); [destruct (extract _ response) |]; cbn [snd].
    + specialize (Hlogs [] (List.Forall_nil _)). now rewrite List.app_nil_r in Hlogs.
    + rewrite <- List.app_assoc. apply Hlogs. repeat constructor.
    + specialize (Hlogs [] (List.Forall_nil _)). now rewrite List.app_nil_r in Hlogs.
Qed.

(** The shape of the requests of the cascade over a list of providers. *)
Lemma chat_loop_requests providers msgs : forall tr,
  exists d ks,
    snd (cascade providers msgs tr) = tr ++ d /\
    fetched d = request_blocks providers ks /\
    List.Forall2 (fun p k => (k <= 3)%nat /\
                             (usable (key_of apiKeys p) = None -> k = 0%nat))
      providers ks /\
    Forall (own_request apiKeys msgs) d.
Proof.
  induction providers as [| p rest IH]; intros tr.
  - exists [], []. cbn. rewrite List.app_nil_r. repeat split; constructor.
  - rewrite chat_loop_step.
    destruct (usable (key_of apiKeys p)) as [key |] eqn:Hk.
    + destruct (chat_try_requests p msgs key tr) as (d & k & Hd & Hrep & Hle & Hev).
      assert (Forall (own_request apiKeys msgs) d) as Hown.
      { revert Hev. apply List.Forall_impl. intros ev.
        destruct ev; cbn; auto. intros [-> ->]. exists key. auto. }
      destruct (try_chat p msgs key tr) as [[error | [result |]] tr1];
        cbn [snd] in Hd; subst tr1.
      * exists d, (k :: List.repeat 0%nat (length rest)). cbn [snd].
        split; [reflexivity |].
        rewrite request_blocks_cons, request_blocks_zero, List.app_nil_r.
        split; [exact Hrep |]. split; [| exact Hown].
        constructor; [split; [exact Hle | congruence] |].
        clear. induction rest; cbn; constructor; auto.
      * exists d, (k :: List.repeat 0%nat (length rest)). cbn [snd].
        split; [reflexivity |].
        rewrite request_blocks_cons, request_blocks_zero, List.app_nil_r.
        split; [exact Hrep |]. split; [| exact Hown].
        constructor; [split; [exact Hle | congruence] |].
        clear. induction rest; cbn; constructor; auto.
      * destruct (IH (tr ++ d)) as (d' & ks & Hd' & Hrep' & Hks & Hown').
        exists (d ++ d'), (k :: ks).
        split; [now rewrite Hd', List.app_assoc |].
        rewrite fetched_app, request_blocks_cons, Hrep, Hrep'.
        split; [reflexivity |]. split.
        -- constructor; [split; [exact Hle | congruence] | exact Hks].
        -- apply List.Forall_app. auto.
    + destruct (IH (tr ++ [EvWarnSkip p])) as (d' & ks & Hd' & Hrep' & Hks & Hown').
      exists ([EvWarnSkip p] ++ d'), (0%nat :: ks).
      split; [now rewrite Hd', <- List.app_assoc |].
      rewrite fetched_app, request_blocks_cons. cbn [fetched List.flat_map List.app List.repeat].
      split; [exact Hrep' |]. split.
      * constructor; [split; [lia | auto] | exact Hks].
      * constructor; [exact I | exact Hown'].
Qed.

(** X5.  Over a whole run of [chat] the providers are requested strictly in
    cascade order, each at most three times in a row and never again once
    the cascade has moved on; a provider without a usable credential is not
    requested at all.  So one call of [chat] makes at most 21 requests. *)
Theorem X5_requests_in_cascade_order msgs tr :
  exists d ks,
    snd (run_chat msgs tr) = tr ++ d /\
    fetched d = request_blocks PROVIDER_CASCADE_ORDER ks /\
    List.Forall2 (fun p k => (k <= 3)%nat /\
                             (usable (key_of apiKeys p) = None -> k = 0%nat))
      PROVIDER_CASCADE_ORDER ks /\
    (length (fetched d) <= 21)%nat.
Proof.
  destruct (chat_loop_requests PROVIDER_CASCADE_ORDER msgs tr)
    as (d & ks & Hd & Hrep & Hks & _).
  exists d, ks. split; [exact Hd |]. split; [exact Hrep |]. split; [exact Hks |].
  rewrite Hrep.
  change 21%nat with (3 * length PROVIDER_CASCADE_ORDER)%nat.
  apply request_blocks_length.
  revert Hks. apply List.Forall2_impl. intros p k [H _]. exact H.
Qed.

(** X9.  Every request that a run of [chat] sends is the one request of its
    provider for the conversation, built with that provider's own usable
    credential: a retry resends the same request, and no request is sent
    with another provider's credential or with an empty one. *)
Theorem X9_requests_are_own msgs tr :
  exists d,
    snd (run_chat msgs tr) = tr ++ d /\
    Forall (own_request apiKeys msgs) d.
Proof.
  destruct (chat_loop_requests PROVIDER_CASCADE_ORDER msgs tr)
    as (d & ks & Hd & _ & _ & Hown).
  exists d. auto.
Qed.

End Order.

(** ** What a run of [chat] amounts to *)

(** What extraction returns is truthy or the empty string. *)
Lemma extract_truthy_or_empty t response v :
  extract t response = Some v -> v = VStr "" \/ truthy v = true.
Proof.
  rewrite extract_spec.
  destruct (structure_missing t response); [discriminate |].
  intros [= <-]. unfold or_else.
  destruct (truthy (text_at t response)) eqn:E; auto.
Qed.

Section Outcome.

Variable fetch : Trace -> Request -> FetchResult.
Variable random : Trace -> spec_float.
Variable apiKeys : ApiKeys.t.

Local Abbreviation try_provider := (tryProviderWithBackoff fetch random).
Local Abbreviation try_chat := (chat_try fetch random).
Local Abbreviation cascade := (chat_loop fetch random apiKeys).
Local Abbreviation run_chat := (chat fetch random apiKeys).

(** One iteration of the cascade either passes the provider over, as a
    provider without result, or returns what was extracted from the truthy
    response of its call. *)
Lemma chat_try_outcome p msgs key tr :
  match try_chat p msgs key tr with
  | (inr None, tr1) => no_result_at fetch random p msgs key tr = Some tr1
  | (inr (Some result), tr1) =>
      exists response,
        try_provider p msgs key tr = (inr response, tr1) /\
        truthy response = true /\
        extract (type (PROVIDER_CONFIG p)) response = Some (ChatResult.content result) /\
        ChatResult.provider result = p
  | (inl _, _) => False
  end.
Proof.
  rewrite chat_try_run. unfold no_result_at.
  destruct (try_provider p msgs key tr) as [[error | response] tr1]; [reflexivity |].
  destruct (truthy response) eqn:Htruthy; [| reflexivity].
  rewrite extract_spec.
  destruct (structure_missing _ response) eqn:Hmiss; [reflexivity |].
  exists response. rewrite extract_spec, Hmiss. auto.
Qed.

(** The two outcomes of the cascade over a list of providers. *)
Lemma chat_loop_outcome providers msgs : forall tr,
  match cascade providers msgs tr with
  | (inl error, tr') =>
      error = new_Error aggregate_message /\
      all_without_result fetch random apiKeys providers msgs tr = Some tr'
  | (inr result, tr') =>
      exists pre post key tr0 response,
        providers = pre ++ ChatResult.provider result :: post /\
        all_without_result fetch random apiKeys pre msgs tr = Some tr0 /\
        usable (key_of apiKeys (ChatResult.provider result)) = Some key /\
        try_provider (ChatResult.provider result) msgs key tr0 = (inr response, tr') /\
        truthy response = true /\
        extract (type (PROVIDER_CONFIG (ChatResult.provider result))) response
          = Some (ChatResult.content result)
  end.
Proof.
  induction providers as [| p rest IH]; intros tr.
  - cbn. auto.
  - rewrite chat_loop_step. cbn [all_without_result].
    destruct (usable (key_of apiKeys p)) as [key |] eqn:Hkey.
    + pose proof (chat_try_outcome p msgs key tr) as Hstep.
      destruct (try_chat p msgs key tr) as [[error | [result |]] tr1]; [contradiction | |].
      * destruct Hstep as (response & Hcall & Htruthy & Htext & Hp).
        exists [], rest, key, tr, response. rewrite Hp. cbn. split_and!; auto.
      * rewrite Hstep. specialize (IH tr1).
        destruct (cascade rest msgs tr1) as [[error | result] tr']; [exact IH |].
        destruct IH as (pre & post & key' & tr0 & response & -> & Hpre & IH).
        exists (p :: pre), post, key', tr0, response.
        split; [reflexivity |]. split; [| exact IH].
        cbn [all_without_result]. now rewrite Hkey, Hstep.
    + specialize (IH (tr ++ [EvWarnSkip p])).
      destruct (cascade rest msgs (tr ++ [EvWarnSkip p])) as [[error | result] tr'];
        [exact IH |].
      destruct IH as (pre & post & key' & tr0 & response & -> & Hpre & IH).
      exists (p :: pre), post, key', tr0, response.
      split; [reflexivity |]. split; [| exact IH].
      cbn [all_without_result]. now rewrite Hkey.
Qed.

(** X6.  Whenever [chat] resolves, its result comes from a provider of the
    cascade order that has a usable credential: every provider before it
    was skipped or gave no result, its own call returned a truthy response,
    the content is what extraction reads from that response, and the trace
    ends with the request that was answered. *)
Theorem X6_result_comes_from_first_success msgs tr result tr' :
  run_chat msgs tr = (inr result, tr') ->
  exists pre post key tr0 response,
    PROVIDER_CASCADE_ORDER = pre ++ ChatResult.provider result :: post /\
    all_without_result fetch random apiKeys pre msgs tr = Some tr0 /\
    usable (key_of apiKeys (ChatResult.provider result)) = Some key /\
    try_provider (ChatResult.provider result) msgs key tr0 = (inr response, tr') /\
    truthy response = true /\
    extract (type (PROVIDER_CONFIG (ChatResult.provider result))) response
      = Some (ChatResult.content result) /\
    exists t,
      tr' = t ++ [EvFetch (ChatResult.provider result)
                    (request_of (ChatResult.provider result) msgs key)].
Proof.
  intros Hrun.
  pose proof (chat_loop_outcome PROVIDER_CASCADE_ORDER msgs tr) as H.
  unfold chat in Hrun. rewrite Hrun in H.
  destruct H as (pre & post & key & tr0 & response & Ho & Hpre & Hkey & Hcall & Ht & He).
  exists pre, post, key, tr0, response.
  repeat (split; [assumption |]).
  destruct (retry_loop_returns fetch random _ _ _ _ _ _ _ _ _ Hcall)
    as (t & r & _ & _ & _ & ->).
  now exists t.
Qed.

(** X7.  [chat] rejects exactly when every provider of the cascade order,
    tried in turn, is skipped or gives no result (its call fails, or returns
    a falsy or unparsable response); the error is then the aggregate one and
    the trace is the trace of those attempts. *)
Theorem X7_rejects_iff_no_result msgs tr error tr' :
  run_chat msgs tr = (inl error, tr') <->
  error = new_Error aggregate_message /\
  all_without_result fetch random apiKeys PROVIDER_CASCADE_ORDER msgs tr = Some tr'.
Proof.
  split.
  - intros Hrun.
    pose proof (chat_loop_outcome PROVIDER_CASCADE_ORDER msgs tr) as H.
    unfold chat in Hrun. now rewrite Hrun in H.
  - intros [-> Hall]. unfold chat.
    pose proof (chat_loop_passes fetch random apiKeys
                  PROVIDER_CASCADE_ORDER [] msgs tr tr' Hall) as Hpass.
    rewrite List.app_nil_r in Hpass. now rewrite Hpass.
Qed.

(** X8.  The content [chat] resolves with is never undefined, null or any
    other falsy value but the empty string: it is the empty string or a
    truthy value. *)
Theorem X8_content_truthy_or_empty msgs tr result tr' :
  run_chat msgs tr = (inr result, tr') ->
  nullish (ChatResult.content result) = false /\
  (ChatResult.content result = VStr "" \/ truthy (ChatResult.content result) = true).
Proof.
  intros Hrun.
  pose proof (chat_loop_outcome PROVIDER_CASCADE_ORDER msgs tr) as H.
  unfold chat in Hrun. rewrite Hrun in H.
  destruct H as (_ & _ & _ & _ & response & _ & _ & _ & _ & _ & He).
  apply extract_truthy_or_empty in He.
  split; [| exact He].
  destruct He as [-> | He]; [reflexivity |].
  destruct (ChatResult.content result); cbn in *; congruence.
Qed.

(** X12.  When the endpoint of a provider with a credential first answers
    429 or a status of 500 or more, and then answers 2xx with a truthy body
    from which [text] is extracted, the cascade resolves with [text] through
    that same provider, not through a later one, after exactly two requests
    and one sleep of the first delay of the schedule. *)
Theorem X12_retry_then_success p key rest msgs tr r1 r2 response text :
  usable (key_of apiKeys p) = Some key ->
  fetch tr (request_of p msgs key) = Responded r1 ->
  Response.status r1 = 429 \/ 500 <= Response.status r1 ->
  fetch (snd (backoff random p 0
                (ThrowError
                   (JsError.Build
                      ("API call to " +:+ Provider_name p +:+ " failed with status " +:+
                       pretty (Response.status r1) +:+ ": " +:+ Response.text r1)
                      (Some (Response.status r1))))
                (tr ++ [EvFetch p (request_of p msgs key)])))
        (request_of p msgs key) = Responded r2 ->
  Response.ok r2 = true ->
  Response.json r2 = inr response ->
  truthy response = true ->
  extract (type (PROVIDER_CONFIG p)) response = Some text ->
  cascade (p :: rest) msgs tr =
  (inr (ChatResult.Build text p),
   tr ++ [EvFetch p (request_of p msgs key);
          EvWarnRetry p (Some (Response.status r1))
            (backoff_delay 0 (random (tr ++ [EvFetch p (request_of p msgs key)])));
          EvSleep (backoff_delay 0 (random (tr ++ [EvFetch p (request_of p msgs key)])));
          EvFetch p (request_of p msgs key)]).
Proof.
  intros Hkey H1 Hs H2 Hok Hj Htruthy Htext.
  assert (Response.ok r1 = false) as Hbad.
  { unfold Response.ok. apply andb_false_iff. right. apply Z.leb_gt. lia. }
  set (error := ThrowError _) in H2.
  assert (makeApiCall fetch p msgs key tr =
          (inl error, tr ++ [EvFetch p (request_of p msgs key)])) as Hc1.
  { unfold makeApiCall. now rewrite H1, Hbad. }
  assert (retryable error = true) as Hretry.
  { unfold retryable. cbn. apply orb_true_iff. rewrite Z.eqb_eq, Z.leb_le. tauto. }
  rewrite chat_loop_step, Hkey, chat_try_run.
  unfold tryProviderWithBackoff, MAX_RETRIES.
  rewrite retry_loop_step, Hc1, Hretry, retry_loop_step.
  unfold makeApiCall at 1. rewrite H2, Hok, Hj. cbn [negb].
  rewrite Htruthy, Htext, backoff_run. cbn [snd].
  now rewrite <- !List.app_assoc.
Qed.

(** X13.  When the endpoint of a provider with a credential answers with a
    status outside 200..299 that is neither 429 nor 500 or more (a 401,
    say), the cascade does not retry: after that single request it logs the
    failure and goes on with the next provider. *)
Theorem X13_client_error_falls_through p key rest msgs tr r :
  usable (key_of apiKeys p) = Some key ->
  fetch tr (request_of p msgs key) = Responded r ->
  Response.ok r = false ->
  Response.status r <> 429 ->
  Response.status r < 500 ->
  cascade (p :: rest) msgs tr =
  cascade rest msgs
    (tr ++ [EvFetch p (request_of p msgs key);
            EvErrorFailed p
              (ThrowError
                 (JsError.Build
                    ("API call to " +:+ Provider_name p +:+ " failed with status " +:+
                     pretty (Response.status r) +:+ ": " +:+ Response.text r)
                    (Some (Response.status r))))]).
Proof.
  intros Hkey Hf Hbad H429 H500.
  set (error := ThrowError _).
  assert (makeApiCall fetch p msgs key tr =
          (inl error, tr ++ [EvFetch p (request_of p msgs key)])) as Hc.
  { unfold makeApiCall. now rewrite Hf, Hbad. }
  assert (retryable error = false) as Hfast.
  { unfold retryable. cbn. apply orb_false_iff. rewrite Z.eqb_neq, Z.leb_gt. auto. }
  rewrite chat_loop_step, Hkey, chat_try_run.
  unfold tryProviderWithBackoff, MAX_RETRIES.
  rewrite retry_loop_step, Hc, Hfast.
  now rewrite <- List.app_assoc.
Qed.

End Outcome.

(** ** Nothing is lost in a request; a text comes back unchanged *)

Lemma append_inj_r (s a b : string) : s +:+ a = s +:+ b -> a = b.
Proof.
  induction s as [| c s IH]; cbn; [auto |].
  intros [= H]. auto.
Qed.

Lemma map_inj {A B : Type} (f : A -> B) :
  (forall x y, f x = f y -> x = y) ->
  forall l l', List.map f l = List.map f l' -> l = l'.
Proof.
  intros Hf. induction l as [| x l IH]; intros [| y l']; cbn; try discriminate.
  - reflexivity.
  - intros [= Hxy Hl]. f_equal; auto.
Qed.

Lemma message_value_inj m m' : message_value m = message_value m' -> m = m'.
Proof.
  destruct m as [r c], m' as [r' c']. unfold message_value. cbn.
  intros [= Hr ->]. f_equal. destruct r, r'; cbn in Hr; congruence.
Qed.

Lemma gemini_message_inj m m' : gemini_message m = gemini_message m' -> m = m'.
Proof.
  destruct m as [r c], m' as [r' c']. unfold gemini_message. cbn.
  intros [= Hr ->]. f_equal. destruct r, r'; cbn in Hr; congruence.
Qed.

Lemma request_url_provider p q key key' :
  request_url p key = request_url q key' -> p = q.
Proof.
  destruct p, q; cbn; intros H; try reflexivity; discriminate H.
Qed.

(** X10.  The request determines the provider, the conversation and the
    credential it was built from: two requests are equal only when all three
    are.  The translation of the conversation into either dialect loses
    nothing, the renaming of the assistant role included. *)
Theorem X10_request_determines_inputs p q msgs msgs' key key' :
  request_of p msgs key = request_of q msgs' key' ->
  p = q /\ msgs = msgs' /\ key = key'.
Proof.
  intros H.
  pose proof (f_equal url H) as Hurl.
  pose proof (f_equal headers H) as Hhead.
  pose proof (f_equal body H) as Hbody.
  cbn [request_of url headers body] in Hurl, Hhead, Hbody.
  pose proof (request_url_provider _ _ _ _ Hurl) as <-.
  split; [reflexivity |].
  unfold request_url, request_headers, request_body in *.
  destruct (type (PROVIDER_CONFIG p)).
  - split.
    + injection Hbody as Hmsgs. now apply (map_inj _ message_value_inj).
    + pose proof (f_equal (fun h : gmap string string => h !! "Authorization") Hhead) as Hauth.
      cbn beta in Hauth. rewrite !lookup_insert_eq in Hauth.
      injection Hauth as Hauth. exact (append_inj_r _ _ _ Hauth).
  - split.
    + injection Hbody as Hmsgs. now apply (map_inj _ gemini_message_inj).
    + do 3 apply append_inj_r in Hurl. exact Hurl.
Qed.

(** X11.  A text that is a string comes back unchanged, the empty string
    included: when the structure is not missing and the first choice's
    message content (or the first candidate's first part's text) is the
    string [s], extraction returns [s] and logs nothing. *)
Theorem X11_string_text_unchanged p response s tr :
  structure_missing (type (PROVIDER_CONFIG p)) response = false ->
  text_at (type (PROVIDER_CONFIG p)) response = VStr s ->
  parseResponse p response tr = (inr (VStr s), tr).
Proof.
  intros Hmiss Htext.
  rewrite parseResponse_run, extract_spec, Hmiss, Htext.
  unfold or_else. cbn.
  destruct (String.eqb_spec s ""); [subst |]; reflexivity.
Qed.

(** ** Further concrete instances *)

Lemma X1_witness :
  makeApiCall three_down cerebras hello "fake-cerebras-key" [] = (inl error_500, attempt1) /\
  attempt1 = [] ++ [EvFetch cerebras (request_of cerebras hello "fake-cerebras-key")].
Proof.
  assert (makeApiCall three_down cerebras hello "fake-cerebras-key" []
          = (inl error_500, attempt1)) as H by (vm_compute; reflexivity).
  split; [exact H |].
  exact (proj1 (X1_makeApiCall_outcome three_down cerebras hello "fake-cerebras-key"
                  [] _ _ H)).
Defined.

Lemma X2_witness :
  tryProviderWithBackoff offline random_half cerebras hello "fake-cerebras-key" [] =
  (inl (new_Error "Failed to fetch"),
   [] ++ [EvFetch cerebras (request_of cerebras hello "fake-cerebras-key")]).
Proof.
  apply X2_no_retry_without_status. left. reflexivity.
Defined.

Lemma X6_witness :
  exists pre post key tr0 response,
    PROVIDER_CASCADE_ORDER = pre ++ gemini :: post /\
    all_without_result cerebras_down random_half FAKE_API_KEYS pre hello [] = Some tr0 /\
    usable (key_of FAKE_API_KEYS gemini) = Some key /\
    tryProviderWithBackoff cerebras_down random_half gemini hello key tr0 =
      (inr response, snd (chat cerebras_down random_half FAKE_API_KEYS hello [])) /\
    truthy response = true /\
    extract (type (PROVIDER_CONFIG gemini)) response = Some (VStr "Response from Gemini") /\
    exists t,
      snd (chat cerebras_down random_half FAKE_API_KEYS hello []) =
      t ++ [EvFetch gemini (request_of gemini hello key)].
Proof.
  apply (X6_result_comes_from_first_success cerebras_down random_half FAKE_API_KEYS
           hello [] (ChatResult.Build (VStr "Response from Gemini") gemini)).
  vm_compute. reflexivity.
Defined.

Lemma X8_witness :
  nullish (VStr "Response from Gemini") = false /\
  (VStr "Response from Gemini" = VStr "" \/ truthy (VStr "Response from Gemini") = true).
Proof.
  apply (X8_content_truthy_or_empty cerebras_down random_half FAKE_API_KEYS
           hello [] (ChatResult.Build (VStr "Response from Gemini") gemini)
           (snd (chat cerebras_down random_half FAKE_API_KEYS hello []))).
  vm_compute. reflexivity.
Defined.

Lemma X10_witness :
  gemini = gemini /\ conversation = conversation /\ "fake-gemini-key" = "fake-gemini-key".
Proof.
  apply (X10_request_determines_inputs gemini gemini conversation conversation
           "fake-gemini-key" "fake-gemini-key").
  reflexivity.
Defined.

Lemma X11_witness :
  parseResponse deepseek (openai_reply "Response from DeepSeek") [] =
  (inr (VStr "Response from DeepSeek"), []).
Proof.
  apply X11_string_text_unchanged; reflexivity.
Defined.

Lemma X12_witness :
  chat_loop cerebras_unavailable_once random_half FAKE_API_KEYS [cerebras; gemini] hello [] =
  (inr (ChatResult.Build (VStr "Back again") cerebras),
   [] ++ [EvFetch cerebras (request_of cerebras hello "fake-cerebras-key");
          EvWarnRetry cerebras (Some 503)
            (backoff_delay 0
               (random_half ([] ++ [EvFetch cerebras (request_of cerebras hello "fake-cerebras-key")])));
          EvSleep
            (backoff_delay 0
               (random_half ([] ++ [EvFetch cerebras (request_of cerebras hello "fake-cerebras-key")])));
          EvFetch cerebras (request_of cerebras hello "fake-cerebras-key")]).
Proof.
  apply (X12_retry_then_success cerebras_unavailable_once random_half FAKE_API_KEYS
           cerebras "fake-cerebras-key" [gemini] hello []
           (Response.Build 503 "Service Unavailable" (inl "Unexpected token in JSON"))
           (Response.Build 200 "" (inr (openai_reply "Back again")))
           (openai_reply "Back again") (VStr "Back again"));
    try (vm_compute; reflexivity).
  right. cbn. lia.
Defined.

Lemma X13_witness :
  chat_loop cerebras_unauthorized random_half FAKE_API_KEYS [cerebras; gemini] hello [] =
  chat_loop cerebras_unauthorized random_half FAKE_API_KEYS [gemini] hello
    ([] ++ [EvFetch cerebras (request_of cerebras hello "fake-cerebras-key");
            EvErrorFailed cerebras
              (ThrowError
                 (JsError.Build
                    ("API call to " +:+ Provider_name cerebras +:+ " failed with status " +:+
                     pretty 401 +:+ ": " +:+ "Unauthorized")
                    (Some 401)))]).
Proof.
  apply (X13_client_error_falls_through cerebras_unauthorized random_half FAKE_API_KEYS
           cerebras "fake-cerebras-key" [gemini] hello []
           (Response.Build 401 "Unauthorized" (inl "Unexpected token in JSON")));
    try (vm_compute; reflexivity); cbn; lia.
Defined.

(** ** The log of a rejected call *)

Lemma Provider_eqb_neq (p q : Provider) : p <> q -> Provider_eqb p q = false.
Proof.
  intros H. destruct (Provider_eqb p q) eqn:E; [| reflexivity].
  apply Provider_eqb_eq in E. contradiction.
Qed.

(** The events of one provider's iteration count for no other provider, and
    never as a skip. *)
Lemma provider_event_counts p q d :
  Forall (provider_event p) d ->
  skips_of q d = 0%nat /\
  (q <> p -> requests_to q d = 0%nat /\ failures_of q d = 0%nat).
Proof.
  intros Hev. split; [| intros Hq; split].
  - apply (count_none (is_skip q) (provider_event p) d); [| exact Hev].
    intros [| | | | |]; cbn; tauto.
  - apply (count_none (is_request q) (provider_event p) d); [| exact Hev].
    intros [r req | | | | |]; cbn; try reflexivity.
    intros ->. now apply Provider_eqb_neq.
  - apply (count_none (is_failure q) (provider_event p) d); [| exact Hev].
    intros [| | | | r e |]; cbn; try reflexivity.
    intros ->. now apply Provider_eqb_neq.
Qed.

Section Log.

Variable fetch : Trace -> Request -> FetchResult.
Variable random : Trace -> spec_float.
Variable apiKeys : ApiKeys.t.

Local Abbreviation try_provider := (tryProviderWithBackoff fetch random).
Local Abbreviation run_chat := (chat fetch random apiKeys).

(** A provider that gives no result was requested one to three times and
    has at most one failure logged. *)
Lemma no_result_at_counts p msgs key tr tr1 :
  no_result_at fetch random p msgs key tr = Some tr1 ->
  exists d,
    tr1 = tr ++ d /\ Forall (provider_event p) d /\
    (1 <= requests_to p d <= 3)%nat /\ (failures_of p d <= 1)%nat.
Proof.
  unfold no_result_at.
  destruct (tryProviderWithBackoff_events fetch random p msgs key tr)
    as (d & Hd & Hev & Hle).
  pose proof (retry_loop_requests_first fetch random 2 0 ThrowUndefined p msgs key tr)
    as Hge.
  unfold tryProviderWithBackoff, MAX_RETRIES in *.
  set (run := tryProviderWithBackoff_loop fetch random 3 0 ThrowUndefined p msgs key tr) in *.
  rewrite Hd, requests_to_app in Hge.
  pose proof (List.Forall_impl (provider_event p) (retry_event_provider p) Hev) as Hev'.
  assert (failures_of p d = 0%nat) as Hfail.
  { apply (count_none (is_failure p) (retry_event p) d); [| exact Hev].
    intros [| | | | |]; cbn; tauto. }
  assert (forall logs,
            Forall (provider_event p) logs -> requests_to p logs = 0%nat ->
            (failures_of p logs <= 1)%nat ->
            exists d0,
              tr ++ d ++ logs = tr ++ d0 /\ Forall (provider_event p) d0 /\
              (1 <= requests_to p d0 <= 3)%nat /\ (failures_of p d0 <= 1)%nat) as Hlogs.
  { intros logs Hl Hr Hf. exists (d ++ logs).
    split; [reflexivity |]. split; [apply List.Forall_app; auto |].
    unfold failures_of in *. rewrite requests_to_app, count_app. lia. }
  clear Hge. destruct run as [[error | response] t];
    cbn [snd] in Hd; subst t.
  - intros [= <-]. rewrite <- List.app_assoc. apply Hlogs.
    + repeat constructor.
    + reflexivity.
    + unfold failures_of, count. cbn. rewrite Provider_eqb_refl. cbn. lia.
  - destruct (truthy response).
    + destruct (structure_missing _ response); [| discriminate].
      intros [= <-]. rewrite <- List.app_assoc. apply Hlogs.
      * repeat constructor.
      * reflexivity.
      * unfold failures_of, count. cbn. rewrite Provider_eqb_refl. cbn. lia.
    + intros [= <-].
      specialize (Hlogs [] (List.Forall_nil _) eq_refl (Nat.le_0_l 1)).
      now rewrite List.app_nil_r in Hlogs.
Qed.

(** The log of a list of distinct providers all passed over. *)
Lemma all_without_result_log providers msgs : forall tr tr',
  NoDup providers ->
  all_without_result fetch random apiKeys providers msgs tr = Some tr' ->
  forall p,
    (~ In p providers ->
     skips_of p tr' = skips_of p tr /\ requests_to p tr' = requests_to p tr /\
     failures_of p tr' = failures_of p tr) /\
    (In p providers ->
     match usable (key_of apiKeys p) with
     | None =>
         skips_of p tr' = S (skips_of p tr) /\ requests_to p tr' = requests_to p tr /\
         failures_of p tr' = failures_of p tr
     | Some _ =>
         skips_of p tr' = skips_of p tr /\
         (requests_to p tr + 1 <= requests_to p tr' <= requests_to p tr + 3)%nat /\
         (failures_of p tr <= failures_of p tr' <= failures_of p tr + 1)%nat
     end).
Proof.
  induction providers as [| q rest IH]; intros tr tr' Hnd Hall p.
  - cbn in Hall. injection Hall as <-. split; [auto | contradiction].
  - apply NoDup_cons in Hnd as [Hq Hnd]. rewrite list_elem_of_In in Hq.
    cbn [all_without_result] in Hall.
    destruct (usable (key_of apiKeys q)) as [key |] eqn:Hkey.
    + destruct (no_result_at fetch random q msgs key tr) as [tr1 |] eqn:Hno;
        [| discriminate].
      destruct (no_result_at_counts q msgs key tr tr1 Hno) as (d & -> & Hev & Hreq & Hfail).
      destruct (provider_event_counts q p d Hev) as [Hs Hother].
      specialize (IH (tr ++ d) tr' Hnd Hall p) as [IHout IHin].
      unfold skips_of, requests_to, failures_of in *. rewrite !count_app in *.
      split.
      * intros Hp. cbn in Hp.
        assert (p <> q) as Hpq by (intros ->; tauto).
        destruct (Hother Hpq) as [Hr Hf].
        destruct IHout as (? & ? & ?); [tauto | lia].
      * intros [<- | Hp].
        -- rewrite Hkey. destruct (IHout Hq) as (? & ? & ?). lia.
        -- assert (p <> q) as Hpq by (intros ->; contradiction).
           destruct (Hother Hpq) as [Hr Hf].
           specialize (IHin Hp).
           destruct (usable (key_of apiKeys p)); lia.
    + specialize (IH (tr ++ [EvWarnSkip q]) tr' Hnd Hall p) as [IHout IHin].
      unfold skips_of, requests_to, failures_of in *. rewrite !count_app in *.
      assert (count (is_request p) [EvWarnSkip q] = 0%nat) as Hr by reflexivity.
      assert (count (is_failure p) [EvWarnSkip q] = 0%nat) as Hf by reflexivity.
      split.
      * intros Hp. cbn in Hp.
        assert (count (is_skip p) [EvWarnSkip q] = 0%nat) as Hs.
        { unfold count. cbn. rewrite Provider_eqb_neq; [reflexivity | intros ->; tauto]. }
        destruct IHout as (? & ? & ?); [tauto | lia].
      * intros [<- | Hp].
        -- rewrite Hkey.
           assert (count (is_skip q) [EvWarnSkip q] = 1%nat) as Hs.
           { unfold count. cbn. now rewrite Provider_eqb_refl. }
           destruct (IHout Hq) as (? & ? & ?). lia.
        -- assert (count (is_skip p) [EvWarnSkip q] = 0%nat) as Hs.
           { unfold count. cbn.
             rewrite Provider_eqb_neq; [reflexivity | intros ->; contradiction]. }
           specialize (IHin Hp).
           destruct (usable (key_of apiKeys p)); lia.
Qed.

(** X14.  The log of a call of [chat] that rejects.  Every provider without
    a usable credential has been skipped exactly once, with no request and
    no failure logged; every provider with one has been requested one to
    three times, never skipped, and has at most one failure logged. *)
Theorem X14_log_of_rejection msgs tr error tr' p :
  run_chat msgs tr = (inl error, tr') ->
  match usable (key_of apiKeys p) with
  | None =>
      skips_of p tr' = S (skips_of p tr) /\ requests_to p tr' = requests_to p tr /\
      failures_of p tr' = failures_of p tr
  | Some _ =>
      skips_of p tr' = skips_of p tr /\
      (requests_to p tr + 1 <= requests_to p tr' <= requests_to p tr + 3)%nat /\
      (failures_of p tr <= failures_of p tr' <= failures_of p tr + 1)%nat
  end.
Proof.
  intros Hrun.
  pose proof (chat_loop_outcome fetch random apiKeys PROVIDER_CASCADE_ORDER msgs tr) as H.
  unfold chat in Hrun. rewrite Hrun in H. destruct H as [_ Hall].
  apply (all_without_result_log PROVIDER_CASCADE_ORDER msgs tr tr'
           cascade_order_nodup Hall p).
  unfold PROVIDER_CASCADE_ORDER. destruct p; cbn; tauto.
Qed.

End Log.

Lemma X14_witness :
  skips_of cerebras (snd (chat three_down random_half incompleteKeys hello []))
    = S (skips_of cerebras []) /\
  requests_to cerebras (snd (chat three_down random_half incompleteKeys hello []))
    = requests_to cerebras [] /\
  failures_of cerebras (snd (chat three_down random_half incompleteKeys hello []))
    = failures_of cerebras [].
Proof.
  apply (X14_log_of_rejection three_down random_half incompleteKeys hello []
           (new_Error aggregate_message)
           (snd (chat three_down random_half incompleteKeys hello [])) cerebras).
  vm_compute. reflexivity.
Defined.
